(** * gitalong: the batched resolution pipeline and the JSONBin store

    A shallow embedding of [gitalong/batch.py] and
    [gitalong/stores/jsonbin_store.py].  Python's exceptions are an
    explicit result type, the mutable outside world (clock, cached ledger
    file, ledger transport, working files) is a record threaded through a
    state-and-error monad, and dictionaries are finite maps over string
    keys. *)

From Stdlib Require Import ZArith String Ascii List Bool OrderedTypeEx Sorted.
From stdpp Require Import gmap strings list fin_maps.

Local Open Scope string_scope.
Local Open Scope list_scope.
Local Open Scope Z_scope.

(** ** Python values *)

Module Py.

(** The exceptions that the modelled code raises or lets through.
    [StoreNotReachable] is imported by the store from [exceptions], whose
    source does not declare it; it stands for what the specification calls
    the failure of the transport. *)
Inductive exn :=
| TypeError
| AttributeError
| IndexError
| KeyError
| ValueError
| RuntimeError
| CommandFailed (message : string)   (* the bare [Exception] of [run_command] *)
| GitCommandError
| InvalidGitRepositoryError
| RepositoryNotSetup
| RepositoryInvalidConfig
| StoreNotReachable
| ConnectionError.                   (* [requests] could not get a response *)

Inductive result (A : Type) :=
| Ok (a : A)
| Raise (e : exn).
Arguments Ok {A} a.
Arguments Raise {A} e.

(** A value stored under a key of a commit dictionary: a string
    ([sha], [remote], [clone], [date], [author], the context keys), a list
    of strings ([changes]) or the nested [branches] dictionary, whose keys
    keep their insertion order. *)
Inductive value :=
| VStr (s : string)
| VList (l : list string)
| VDict (d : list (string * list string)).

#[export] Instance value_eq_dec : EqDecision value.
Proof. solve_decision. Defined.

(** [str.strip()] removes these characters at both ends (the ASCII ones). *)
Definition is_space (c : ascii) : bool :=
  let n := N_of_ascii c in
  ((9 <=? n) && (n <=? 13) || (28 <=? n) && (n <=? 32))%N.

Fixpoint lstrip (s : string) : string :=
  match s with
  | String c s' => if is_space c then lstrip s' else s
  | EmptyString => EmptyString
  end.

Fixpoint rstrip (s : string) : string :=
  match s with
  | String c s' =>
      match rstrip s' with
      | EmptyString => if is_space c then EmptyString else String c EmptyString
      | t => String c t
      end
  | EmptyString => EmptyString
  end.

Definition strip (s : string) : string := rstrip (lstrip s).

(** [s.split(sep)] for a one-character separator. *)
Fixpoint split (sep : ascii) (s : string) : list string :=
  match s with
  | EmptyString => [EmptyString]
  | String c s' =>
      if Ascii.eqb c sep then EmptyString :: split sep s'
      else match split sep s' with
           | t :: ts => String c t :: ts
           | [] => [String c EmptyString]
           end
  end.

(** [s.replace(c, empty)] for a one-character [c]. *)
Fixpoint remove_char (c : ascii) (s : string) : string :=
  match s with
  | EmptyString => EmptyString
  | String d s' => if Ascii.eqb d c then remove_char c s' else String d (remove_char c s')
  end.

(** The characters of a string, as iterating over a [str] yields them. *)
Fixpoint chars (s : string) : list string :=
  match s with
  | EmptyString => []
  | String c s' => String c EmptyString :: chars s'
  end.

(** An object whose type is only known at run time: what the
    post-processing of command results operates on. *)
Inductive obj :=
| OStr (s : string)
| OBytes (b : string)
| OInt (n : N)
| OList (l : list string).

(** [o[0]] *)
Definition getitem0 (o : obj) : result obj :=
  match o with
  | OStr (String c _) => Ok (OStr (String c EmptyString))
  | OBytes (String c _) => Ok (OInt (N_of_ascii c))
  | OList (x :: _) => Ok (OStr x)
  | _ => Raise IndexError
  end.

(** [o.decode("utf-8")]: only [bytes] has the method. *)
Definition decode (o : obj) : result obj :=
  match o with
  | OBytes b => Ok (OStr b)
  | _ => Raise AttributeError
  end.

(** [o.split("\n")]: a [str] method here (a [bytes] receiver rejects the
    [str] separator, a list has no such method). *)
Definition split_lines (o : obj) : result obj :=
  match o with
  | OStr s => Ok (OList (split "010"%char s))
  | OBytes _ => Raise TypeError
  | _ => Raise AttributeError
  end.

(** [o.replace(c, empty)] *)
Definition replace_char (c : ascii) (o : obj) : result obj :=
  match o with
  | OStr s => Ok (OStr (remove_char c s))
  | OBytes _ => Raise TypeError
  | _ => Raise AttributeError
  end.

Definition truthy (o : obj) : bool :=
  match o with
  | OStr EmptyString | OBytes EmptyString | OInt 0%N | OList [] => false
  | _ => true
  end.

End Py.
Export Py.

Abbreviation record := (gmap string value).
Abbreviation ledger := (list (gmap string value)).

(** ** The outside world *)

(** A request sent to the ledger transport. *)
Inductive request :=
| GET (url : string) (headers : gmap string string)
| PUT (url : string) (headers : gmap string string) (json : ledger).

(** A response of the transport: the status code, the [record] member of
    the JSON envelope when the body has one, and the body as text.  Without
    that member the body is taken to be a JSON object that lacks it; bodies
    that are no JSON object are not told apart from it. *)
Record response := mkResponse {
  status_code : Z;
  json_record : option ledger;
  text : string;
}.

(** The state that the code reads and writes outside its own variables. *)
Record World := mkWorld {
  clock : Z;                                  (* [time.time()], in seconds *)
  local_json : gmap string (Z * ledger);      (* cache files: mtime and content *)
  net : list response;                        (* what the transport will answer *)
  sent : list request;                        (* what was asked of it so far *)
  files : gmap string bool;                   (* working files: read-only flag *)
  fetches : list (string * bool);             (* fetches done: working dir, prune *)
}.

Definition tick (dt : Z) (w : World) : World :=
  mkWorld (clock w + dt) (local_json w) (net w) (sent w) (files w) (fetches w).

(** ** The state-and-error monad *)

Definition M (A : Type) : Type := World → result A * World.

#[export] Instance M_ret : MRet M := λ A a w, (Ok a, w).
#[export] Instance M_bind : MBind M := λ A B k m w,
  match m w with
  | (Ok a, w') => k a w'
  | (Raise e, w') => (Raise e, w')
  end.

#[export] Instance result_ret : MRet result := λ A a, Ok a.
#[export] Instance result_bind : MBind result := λ A B k r,
  match r with
  | Ok a => k a
  | Raise e => Raise e
  end.

Fixpoint traverse {A B} (f : A → result B) (xs : list A) : result (list B) :=
  match xs with
  | [] => Ok []
  | x :: xs' => y ← f x; ys ← traverse f xs'; Ok (y :: ys)
  end.

Definition raise {A} (e : exn) : M A := λ w, (Raise e, w).
Definition lift {A} (r : result A) : M A := λ w, (r, w).

(** [try: m  except <handled>: h] *)
Definition try_except {A} (m : M A) (handled : exn → bool) (h : M A) : M A := λ w,
  match m w with
  | (Raise e, w') => if handled e then h w' else (Raise e, w')
  | r => r
  end.

(** [for x in xs: body(x)], collecting what each pass appends. *)
Fixpoint for_each {A B} (body : A → M B) (xs : list A) : M (list B) :=
  match xs with
  | [] => mret []
  | x :: xs' => y ← body x; ys ← for_each body xs'; mret (y :: ys)
  end.

(** A computation that leaves the working files and their permissions as
    they are. *)
Definition keeps_files {A} (m : M A) : Prop := ∀ w, files (m w).2 = files w.

(** ** Repository *)

(** The resolved configuration; an absent key is [None] and gets the
    default that the reading code passes to [config.get]. *)
Record Config := mkConfig {
  cfg_store_url : option string;
  cfg_store_headers : option (gmap string string);
  cfg_pull_threshold : option Z;
  cfg_track_uncommitted : option bool;
  cfg_modify_permissions : option bool;
}.

(** [repository.py] is not part of the sources; a repository is what the
    modelled code reads from it. *)
Record Repository := mkRepository {
  working_dir : string;
  remote_url : string;
  config : Config;
  context_keys : list string;                 (* the keys of [context_dict] *)
  get_relative_path : string → string;
  get_commit_spread : record → Z;
}.

Definition pull_threshold (repository : Repository) : Z :=
  default 60 (cfg_pull_threshold (config repository)).

(** ** JsonbinStore *)

Module JsonbinStore.
Section JsonbinStore.

(** [os.path.expandvars], which depends on the process environment. *)
Variable expandvars : string → string.

Definition _url (repository : Repository) : string :=
  default EmptyString (cfg_store_url (config repository)).

Definition _headers (repository : Repository) : gmap string string :=
  default ∅ (cfg_store_headers (config repository)).

Definition _local_json_path (repository : Repository) : string :=
  working_dir repository +:+ "/.gitalong/commits.json".

(** Modelled from the spec: [functions.modified_within], which is not part
    of the sources; the cache file exists and its age is below the given
    number of seconds. *)
Definition modified_within (filename : string) (seconds : Z) : M bool := λ w,
  (Ok match local_json w !! filename with
      | Some (mtime, _) => clock w - mtime <? seconds
      | None => false
      end, w).

(** Modelled from the spec: [Store._read_local_json], which is not part of
    the sources; the content of the cache file, the empty ledger when there
    is none. *)
Definition _read_local_json (repository : Repository) : M ledger := λ w,
  (Ok match local_json w !! _local_json_path repository with
      | Some (_, commits) => commits
      | None => []
      end, w).

(** Modelled from the spec: [Store._write_local_json], which is not part of
    the sources; the cache file is replaced and its modification time is
    now. *)
Definition _write_local_json (repository : Repository) (commits : ledger) : M unit := λ w,
  (Ok (), mkWorld (clock w)
                  (<[_local_json_path repository := (clock w, commits)]> (local_json w))
                  (net w) (sent w) (files w) (fetches w)).

(** [requests.get] and [requests.put]: the request is recorded and the
    transport's next answer returned; without an answer the library raises. *)
Definition send (req : request) : M response := λ w,
  match net w with
  | r :: rest =>
      (Ok r, mkWorld (clock w) (local_json w) rest (sent w ++ [req]) (files w) (fetches w))
  | [] =>
      (Raise ConnectionError,
       mkWorld (clock w) (local_json w) [] (sent w ++ [req]) (files w) (fetches w))
  end.

(** The cache file was modified within the pull threshold. *)
Definition fresh_cache (repository : Repository) (w : World) : Prop :=
  modified_within (_local_json_path repository) (pull_threshold repository) w = (Ok true, w).

(** The [commits] property. *)
Definition commits (repository : Repository) : M ledger :=
  let headers := expandvars <$> _headers repository in
  fresh ← modified_within (_local_json_path repository) (pull_threshold repository);
  if fresh : bool then _read_local_json repository
  else
    response ← send (GET (_url repository) headers);
    if status_code response =? 200 then
      commits ← lift (match json_record response with
                      | Some commits => Ok commits
                      | None => Raise KeyError
                      end);
      _write_local_json repository commits;;
      mret commits
    else raise StoreNotReachable.

(** The setter of the [commits] property. *)
Definition set_commits (repository : Repository) (commits : ledger) : M unit :=
  let headers := expandvars <$> _headers repository in
  let headers := <["Content-Type" := "application/json"]> headers in
  response ← send (PUT (_url repository) headers commits);
  if status_code response =? 200 then _write_local_json repository commits
  else raise StoreNotReachable.

End JsonbinStore.
End JsonbinStore.

(** ** enums.CommitSpread *)

(** Modelled from the spec: [enums.CommitSpread], which is not part of the
    sources; an 8-bit mask with one flag per combination, in the order in
    which the spec lists them. *)
Module CommitSpread.
Definition MINE_UNCOMMITTED : Z := 1.
Definition MINE_ACTIVE_BRANCH : Z := 2.
Definition MINE_OTHER_BRANCH : Z := 4.
Definition REMOTE_MATCHING_BRANCH : Z := 8.
Definition REMOTE_OTHER_BRANCH : Z := 16.
Definition THEIR_OTHER_BRANCH : Z := 32.
Definition THEIR_MATCHING_BRANCH : Z := 64.
Definition THEIR_UNCOMMITTED : Z := 128.
End CommitSpread.

(** ** batch.py *)

(** A raw [git.Commit], as far as the code reads it. *)
Record Commit := mkCommit {
  hexsha : string;
  repo_working_dir : string;                  (* [commit.repo.working_dir] *)
  repo_remote_url : string;                   (* [commit.repo.remote().url] *)
  parents : list string;                      (* the parents' [hexsha] *)
  committed_datetime : string;                (* [str(commit.committed_datetime)] *)
  author_name : string;
}.

(** [git.Commit | dict] *)
Inductive commit_ref :=
| Dict (d : record)
| Raw (c : Commit).

(** A child process after [communicate()]. *)
Record process := mkProcess {
  returncode : Z;
  stdout : string;
  stderr : string;
}.

(** A coroutine object of [run_command]: its arguments, and whether it has
    already been awaited. *)
Record coroutine := mkCoroutine {
  co_args : list value;
  co_awaited : bool;
}.

Definition has_key (key : string) (d : record) : bool :=
  bool_decide (is_Some (d !! key)).

(** What [for change in tracked_commit.get("changes", [])] iterates over. *)
Definition changes_of (d : record) : list string :=
  match d !! "changes" with
  | Some (VList l) => l
  | Some (VStr s) => chars s
  | Some (VDict b) => b.*1
  | None => []
  end.

(** [a < b] on lists of strings. *)
Fixpoint list_ltb (a b : list string) : bool :=
  match a, b with
  | _, [] => false
  | [], _ :: _ => true
  | x :: a', y :: b' =>
      match String.compare x y with
      | Lt => true
      | Eq => list_ltb a' b'
      | Gt => false
      end
  end.

(** [a < b] on the sort keys [commit.get("date")]: strings compare with
    strings and lists with lists; an absent key is [None], which compares
    with nothing, and neither do dictionaries. *)
Definition less_than (a b : option value) : result bool :=
  match a, b with
  | Some (VStr x), Some (VStr y) => Ok (String.ltb x y)
  | Some (VList x), Some (VList y) => Ok (list_ltb x y)
  | _, _ => Raise TypeError
  end.

(** [list.sort(key=...)] is stable and only uses [<] on the keys: each
    element goes before the first element of the sorted rest that is not
    below it.  A list of fewer than two elements is not compared at all. *)
Fixpoint insert_by (key : record → option value) (x : record) (l : ledger) : result ledger :=
  match l with
  | [] => Ok [x]
  | y :: l' =>
      below ← less_than (key y) (key x);
      if below : bool then (l'' ← insert_by key x l'; Ok (y :: l''))
      else Ok (x :: l)
  end.

Fixpoint sort_by (key : record → option value) (l : ledger) : result ledger :=
  match l with
  | [] => Ok []
  | x :: l' => sorted ← sort_by key l'; insert_by key x sorted
  end.

(** [l.remove(x)]: the first element equal to [x] goes. *)
Fixpoint remove_first (x : record) (l : ledger) : result ledger :=
  match l with
  | [] => Raise ValueError
  | y :: l' => if decide (y = x) then Ok l' else (l'' ← remove_first x l'; Ok (y :: l''))
  end.

(** [d[key] = names] on an insertion-ordered dictionary. *)
Fixpoint assoc_set (key : string) (names : list string) (d : list (string * list string))
  : list (string * list string) :=
  match d with
  | [] => [(key, names)]
  | (k, v) :: d' => if decide (k = key) then (k, names) :: d' else (k, v) :: assoc_set key names d'
  end.

(** [branches = d.setdefault("branches", {}); branches[key] = names] *)
Definition set_branches (key : string) (names : list string) (d : record) : result record :=
  match d !! "branches" with
  | None => Ok (<["branches" := VDict [(key, names)]]> d)
  | Some (VDict b) => Ok (<["branches" := VDict (assoc_set key names b)]> d)
  | Some _ => Raise TypeError
  end.

(** A commit whose [date] is a string, and the order of two such dates. *)
Definition has_date (commit : record) : bool :=
  match commit !! "date" with
  | Some (VStr _) => true
  | _ => false
  end.

Definition date_leb (a b : record) : bool :=
  match a !! "date", b !! "date" with
  | Some (VStr x), Some (VStr y) => String.leb x y
  | _, _ => false
  end.

Definition by_date : relation record := λ a b, date_leb a b = true.

(** The collaborators of [batch.py] outside the sources: the standard
    library's path functions, the construction of a [Repository], the
    child processes, and GitPython. *)
Record Outside := mkOutside {
  normpath : string → string;
  expandvars : string → string;
  new_Repository : string → World → result Repository;
  communicate : list string → World → process;
  pulled_within : Repository → Z → World → bool;
  origin_fetch : Repository → bool → World → result unit;
  remote_fetch : Repository → bool → World → result unit;
  git_log : Repository → list string → World → result string;
  repo_commit : Repository → string → World → result (option Commit);
}.

Module Batch.
Section Batch.

Variable E : Outside.

Definition get_repository_safe (filename : string) : M (option Repository) :=
  try_except
    (repository ← (λ w, (new_Repository E filename w, w)); mret (Some repository))
    (λ e, match e with
          | InvalidGitRepositoryError | RepositoryNotSetup => true
          | _ => false
          end)
    (mret None).

(** [asyncio.create_subprocess_exec]: there has to be a program, and every
    argument has to be a string. *)
Definition create_subprocess_exec (args : list value) : M process :=
  match args with
  | [] => raise TypeError
  | _ =>
      argv ← lift (traverse (λ a, match a with VStr s => Ok s | _ => Raise TypeError end) args);
      (λ w, (Ok (communicate E argv w), w)) : M process
  end.

Definition run_command (args : list value) : M string :=
  process ← create_subprocess_exec args;
  if returncode process =? 0 then mret (strip (stdout process))
  else raise (CommandFailed ("Command failed with error: " +:+ strip (stderr process))).

(** Awaiting a coroutine runs it once; a second await is an error. *)
Definition await (c : coroutine) : M string :=
  if co_awaited c then raise RuntimeError else run_command (co_args c).

(** [await asyncio.gather] of the tasks: the results in the order of the tasks;
    the first error is the error of the whole (the tasks run here one
    after the other). *)
Definition gather (tasks : list coroutine) : M (list string) :=
  for_each await tasks.

Definition awaited (c : coroutine) : coroutine := mkCoroutine (co_args c) true.

(** The body of [for result in results] in [get_commits_branches]. *)
Definition branch_names (result : string) : Py.result (list string) :=
  stdout ← getitem0 (OStr result);
  branches ← decode stdout ≫= split_lines;
  branches ← replace_char "*" branches;
  branches ← replace_char " " branches;
  branches ← (if truthy branches then split_lines branches else Ok (OList []));
  match branches with
  | OList l => Ok (remove_dups ((λ branch, List.last (split "/" branch) EmptyString) <$> l))
  | _ => Raise TypeError
  end.

Fixpoint get_commits_branches_loop (remote : bool) (commits : list record)
    (tasks : list coroutine) (branches_list : list (list string)) : M (list (list string)) :=
  match commits with
  | [] => mret branches_list
  | commit :: commits' =>
      let args := [VStr "git"; VStr "-C"; default (VStr EmptyString) (commit !! "clone");
                   if remote then VStr "--remote" else VList []] in
      let args := args ++ [VStr "--contains"; default (VStr EmptyString) (commit !! "sha")] in
      let tasks := tasks ++ [mkCoroutine args false] in
      results ← gather tasks;
      names ← lift (traverse branch_names results);
      get_commits_branches_loop remote commits' (awaited <$> tasks) (branches_list ++ names)
  end.

Definition get_commits_branches (commits : list record) (remote : bool) : M (list (list string)) :=
  get_commits_branches_loop remote commits [] [].

(** The first loop of [get_commit_changes]: a dictionary appends its
    [changes] at once, a raw commit only adds a task. *)
Fixpoint get_commit_changes_loop (commits : list commit_ref)
    (changes_list : list value) (tasks : list coroutine) : list value * list coroutine :=
  match commits with
  | [] => (changes_list, tasks)
  | Dict d :: commits' =>
      get_commit_changes_loop commits' (changes_list ++ [default (VList []) (d !! "changes")]) tasks
  | Raw commit :: commits' =>
      let args := [VStr "git"; VStr "-C"; VStr (repo_working_dir commit);
                   VStr "diff"; VStr "--numstat"; VStr "--no-renames"] in
      let parent := default EmptyString (head (parents commit)) in
      let args := if bool_decide (parent = EmptyString) then args ++ [VStr (hexsha commit)]
                  else args ++ [VStr (hexsha commit +:+ "^"); VStr parent] in
      let args := args ++ [VStr "--"] in
      get_commit_changes_loop commits' changes_list (tasks ++ [mkCoroutine args false])
  end.

(** The body of [for result in results] in [get_commit_changes]. *)
Definition changed_lines (result : string) : Py.result value :=
  stdout ← getitem0 (OStr result);
  changes ← decode stdout ≫= split_lines;
  match changes with
  | OList l => Ok (VList l)
  | _ => Raise TypeError
  end.

Definition get_commit_changes (commits : list commit_ref) : M (list value) :=
  let '(changes_list, tasks) := get_commit_changes_loop commits [] [] in
  results ← gather tasks;
  more ← lift (traverse changed_lines results);
  mret (changes_list ++ more).

Definition get_commits_dicts (commits : list commit_ref) : M (list record) :=
  changes_list ← get_commit_changes commits;
  mret (zip_with (λ commit changes,
                    match commit with
                    | Dict d => d
                    | Raw commit =>
                        <["sha" := VStr (hexsha commit)]>
                        (<["remote" := VStr (repo_remote_url commit)]>
                        (<["changes" := changes]>
                        (<["date" := VStr (committed_datetime commit)]>
                        (<["author" := VStr (author_name commit)]> ∅))))
                    end) commits changes_list).

(** The tracked commits that [get_files_last_commits] keeps for a path
    (already relative to the repository): the inner loop appends the commit
    once per matching change. *)
Definition relevant_tracked_commits (repository : Repository) (filename : string)
    (tracked_commits : ledger) : ledger :=
  let remote := remote_url repository in
  let track_uncommitted := default false (cfg_track_uncommitted (config repository)) in
  tracked_commit ← tracked_commits;
  if (negb track_uncommitted && negb (has_key "sha" tracked_commit))
     || negb (bool_decide (tracked_commit !! "remote" = Some (VStr remote)))
  then []
  else
    change ← changes_of tracked_commit;
    if bool_decide (normpath E change = normpath E filename) then [tracked_commit] else [].

(** [relevant_tracked_commits.sort(key=lambda commit: commit.get("date"))]
    and [relevant_tracked_commits[-1]]. *)
Definition last_tracked_commit (relevant_tracked_commits : ledger) : result record :=
  sorted ← sort_by (λ commit, commit !! "date") relevant_tracked_commits;
  match last sorted with
  | Some last_commit => Ok last_commit
  | None => Raise IndexError
  end.

(** What follows the selection of a tracked commit: a local commit that is
    found on the remote leaves the tracked commits and loses its context
    keys. *)
Definition untrack_if_pushed (repository : Repository) (tracked_commits : ledger)
    (last_commit : record) : M record :=
  branches_list ← get_commits_branches [last_commit] true;
  pushed ← lift (if has_key "sha" last_commit
                 then match branches_list with
                      | branches :: _ => Ok (bool_decide (branches ≠ []))
                      | [] => Raise IndexError
                      end
                 else Ok false);
  if pushed : bool then
    tracked_commits ← lift (remove_first last_commit tracked_commits);
    JsonbinStore.set_commits (expandvars E) repository tracked_commits;;
    mret (foldl (λ last_commit key, delete key last_commit) last_commit (context_keys repository))
  else mret last_commit.

Definition fetch (by_ : Repository → bool → World → result unit)
    (repository : Repository) (prune : bool) : M unit := λ w,
  match by_ repository prune w with
  | Ok _ => (Ok (), mkWorld (clock w) (local_json w) (net w) (sent w) (files w)
                            (fetches w ++ [(working_dir repository, prune)]))
  | Raise e => (Raise e, w)
  end.

(** The argument [--pretty=format:"%H"], with its two quotation marks. *)
Definition pretty_format : string :=
  "--pretty=format:" +:+ String "034" ("%H" +:+ String "034" EmptyString).

(** The branch [if not last_commit] of [get_files_last_commits]. *)
Definition history_last_commit (repository : Repository) (filename : string)
    (prune : bool) : M commit_ref :=
  pulled ← ((λ w, (Ok (pulled_within E repository (pull_threshold repository) w), w)) : M bool);
  (if pulled : bool then mret ()
   else try_except
          (fetch (origin_fetch E) repository prune;; fetch (remote_fetch E) repository prune)
          (λ e, match e with GitCommandError => true | _ => false end)
          (mret ()));;
  let args := ["--all"; "--remotes"; pretty_format; "--"; filename] in
  output ← ((λ w, (git_log E repository args w, w)) : M string);
  let file_commits := if bool_decide (output = EmptyString) then []
                      else split "010" (remove_char "034" output) in
  let sha := default EmptyString (head file_commits) in
  commit ← ((λ w, (repo_commit E repository sha w, w)) : M (option Commit));
  mret (match commit with
        | Some commit => Raw commit
        | None => Dict ∅
        end).

(** One pass of the loop over [filenames]; [repository.store] is the
    JSONBin store, the one store of the sources. *)
Definition file_last_commit (prune : bool) (filename : string) : M commit_ref :=
  repository ← get_repository_safe filename;
  match repository with
  | None => mret (Dict ∅)
  | Some repository =>
      tracked_commits ← JsonbinStore.commits (expandvars E) repository;
      let filename := get_relative_path repository filename in
      let relevant := relevant_tracked_commits repository filename tracked_commits in
      last_commit ← (if bool_decide (relevant = []) then mret ∅
                     else last_commit ← lift (last_tracked_commit relevant);
                          untrack_if_pushed repository tracked_commits last_commit);
      if bool_decide (last_commit = ∅) then history_last_commit repository filename prune
      else mret (Dict last_commit)
  end.

(** The body of the loop that merges the branch names into the commits. *)
Definition with_branches (last_commit_dict : record)
    (local_branches remote_branches : list string) : result record :=
  last_commit_dict ← (if bool_decide (local_branches = []) then Ok last_commit_dict
                      else set_branches "local" local_branches last_commit_dict);
  if bool_decide (remote_branches = []) then Ok last_commit_dict
  else set_branches "remote" remote_branches last_commit_dict.

Fixpoint zip3 {A B C} (xs : list A) (ys : list B) (zs : list C) : list (A * B * C) :=
  match xs, ys, zs with
  | x :: xs', y :: ys', z :: zs' => (x, y, z) :: zip3 xs' ys' zs'
  | _, _, _ => []
  end.

Definition get_files_last_commits (filenames : list string) (prune : bool) : M (list record) :=
  last_commits ← for_each (file_last_commit prune) filenames;
  last_commit_dicts ← get_commits_dicts last_commits;
  local_branches_list ← get_commits_branches last_commit_dicts false;
  remote_branches_list ← get_commits_branches last_commit_dicts true;
  lift (traverse (λ '(last_commit_dict, local_branches, remote_branches),
                    with_branches last_commit_dict local_branches remote_branches)
                 (zip3 last_commit_dicts local_branches_list remote_branches_list)).

(** [os.path.exists] *)
Definition path_exists (filename : string) : M bool := λ w,
  (Ok (bool_decide (is_Some (files w !! filename))), w).

(** Modelled from the spec: [functions.set_read_only], which is not part of
    the sources; the permission toggler sets an existing file read-only or
    writable. *)
Definition set_read_only (filename : string) (read_only : bool) : M unit := λ w,
  (Ok (), mkWorld (clock w) (local_json w) (net w) (sent w)
                  (alter (λ _, read_only) filename (files w)) (fetches w)).

(** What [claim_files] does with a file once its last commit is known. *)
Definition claim_file (filename : string) (last_commit : record) : M record :=
  repository ← get_repository_safe filename;
  let modify_permissions :=
    match repository with
    | Some repository => default false (cfg_modify_permissions (config repository))
    | None => false
    end in
  let spread :=
    match repository with
    | Some repository => get_commit_spread repository last_commit
    | None => 0
    end in
  let is_local_commit :=
    Z.land spread CommitSpread.MINE_ACTIVE_BRANCH =? CommitSpread.MINE_ACTIVE_BRANCH in
  let is_uncommitted :=
    Z.land spread CommitSpread.MINE_UNCOMMITTED =? CommitSpread.MINE_UNCOMMITTED in
  let missing_commit : record := if is_local_commit || is_uncommitted then ∅ else last_commit in
  present ← path_exists filename;
  (if present && bool_decide (missing_commit = ∅) && modify_permissions
   then set_read_only filename (bool_decide (missing_commit ≠ ∅))
   else mret ());;
  mret missing_commit.

Definition claim_files (filenames : list string) (prune : bool) : M (list record) :=
  for_each (λ filename,
              last_commits ← get_files_last_commits [filename] prune;
              last_commit ← lift (match last_commits with
                                  | last_commit :: _ => Ok last_commit
                                  | [] => Raise IndexError
                                  end);
              claim_file filename last_commit) filenames.

End Batch.
End Batch.

(** ** Concrete collaborators and states *)

Module Examples.

(** [posixpath.normpath] *)
Fixpoint normpath_comps (absolute : bool) (comps new_comps : list string) : list string :=
  match comps with
  | [] => new_comps
  | comp :: comps' =>
      if bool_decide (comp = EmptyString) || bool_decide (comp = ".")
      then normpath_comps absolute comps' new_comps
      else if negb (bool_decide (comp = ".."))
              || (negb absolute && bool_decide (new_comps = []))
              || bool_decide (last new_comps = Some "..")
      then normpath_comps absolute comps' (new_comps ++ [comp])
      else normpath_comps absolute comps' (removelast new_comps)
  end.

Definition normpath (path : string) : string :=
  if bool_decide (path = EmptyString) then "."
  else
    let initial_slashes :=
      if String.prefix "/" path
      then (if String.prefix "//" path && negb (String.prefix "///" path) then "//" else "/")
      else EmptyString in
    let comps := normpath_comps (negb (bool_decide (initial_slashes = EmptyString)))
                                (split "/" path) [] in
    let path := initial_slashes +:+ String.concat "/" comps in
    if bool_decide (path = EmptyString) then "." else path.

(** No variable of the environment is referred to. *)
Definition expandvars (value : string) : string := value.

Definition strip_prefix (prefix path : string) : string :=
  if String.prefix prefix path
  then String.substring (String.length prefix) (String.length path - String.length prefix) path
  else path.

(** A clone in [/work/game] whose user tracks uncommitted changes and lets
    gitalong toggle permissions; the classifier puts a commit with a [sha]
    on another branch of the user and a claim without one on a remote
    clone. *)
Definition game : Repository :=
  mkRepository "/work/game" "origin-url"
    (mkConfig (Some "https://api.jsonbin.io/v3/b/ledger") None None (Some true) (Some true))
    ["host"; "user"; "clone"]
    (strip_prefix "/work/game/")
    (λ commit, if has_key "sha" commit then CommitSpread.MINE_OTHER_BRANCH
               else CommitSpread.THEIR_UNCOMMITTED).

(** A second clone, in [/work/studio], with the default for
    [track_uncommitted]; its classifier finds every commit on the active
    branch of the user and on another branch of somebody else. *)
Definition studio : Repository :=
  mkRepository "/work/studio" "origin-url"
    (mkConfig (Some "https://api.jsonbin.io/v3/b/ledger") None None None (Some true))
    ["host"; "user"; "clone"]
    (strip_prefix "/work/studio/")
    (λ commit, Z.lor CommitSpread.MINE_ACTIVE_BRANCH CommitSpread.THEIR_OTHER_BRANCH).

Definition new_Repository (filename : string) (w : World) : result Repository :=
  if String.prefix "/work/game/" filename then Ok game
  else if String.prefix "/work/studio/" filename then Ok studio
  else Raise InvalidGitRepositoryError.

(** Git rejects [--remote] before a subcommand; a [diff] prints one line. *)
Definition communicate (argv : list string) (w : World) : process :=
  if bool_decide ("diff" ∈ argv)
  then mkProcess 0 ("3" +:+ String "009" ("1" +:+ String "009" "art/model.fbx")) EmptyString
  else mkProcess 129 EmptyString "unknown option: --remote".

(** The last fetch was long ago and the remote cannot be reached now; the
    history of the model file has two commits. *)
Definition root_commit : Commit :=
  mkCommit "0a1b2c" "/work/game" "origin-url" [] "2024-04-01 08:00:00+00:00" "dana".

Definition outside : Outside :=
  mkOutside normpath expandvars new_Repository communicate
    (λ _ _ _, false)
    (λ _ _ _, Raise GitCommandError)
    (λ _ _ _, Ok ())
    (λ _ _ _, Ok (String "034" ("0a1b2c" +:+ String "034" EmptyString)))
    (λ _ sha _, if bool_decide (sha = "0a1b2c") then Ok (Some root_commit) else Raise ValueError).

Definition model_fbx : record :=
  <["sha" := VStr "abc"]> (<["remote" := VStr "origin-url"]>
  (<["changes" := VList ["art/model.fbx"]]> (<["date" := VStr "2024-05-01 10:00:00"]>
  (<["clone" := VStr "/work/game"]> ∅)))).

Definition model_fbx_claim : record :=
  <["remote" := VStr "origin-url"]>
  (<["changes" := VList ["art/./model.fbx"; "art/rig.fbx"]]>
  (<["date" := VStr "2024-05-02 09:30:00"]> (<["clone" := VStr "/work/other"]> ∅))).

Definition elsewhere : record :=
  <["sha" := VStr "def"]> (<["remote" := VStr "other-url"]>
  (<["changes" := VList ["art/model.fbx"]]> (<["date" := VStr "2024-06-01 00:00:00"]> ∅))).

Definition tracked : ledger := [model_fbx_claim; elsewhere; model_fbx].

(** Noon; both clones cached the ledger ten seconds ago; nothing comes from
    the transport; the model files are on disk and read-only. *)
Definition noon : World :=
  mkWorld 43200
          (<[ "/work/game/.gitalong/commits.json" := (43190, tracked) ]>
           {[ "/work/studio/.gitalong/commits.json" := (43190, tracked) ]})
          [] []
          (<[ "/work/game/art/model.fbx" := true ]>
           {[ "/work/studio/art/model.fbx" := true ]})
          [].

(** Ten minutes later the transport is asked and answers. *)
Definition answering (r : response) : World :=
  mkWorld 43800 (local_json noon) [r] [] (files noon) [].

End Examples.

(** Two states that differ at most in the transport and in the cache file
    of a repository. *)
Definition same_elsewhere (repository : Repository) (w w' : World) : Prop :=
  clock w' = clock w ∧ files w' = files w ∧ fetches w' = fetches w
  ∧ ∀ path, path ≠ JsonbinStore._local_json_path repository →
            local_json w' !! path = local_json w !! path.

(** ** cli.py *)

Module Cli.

(** [", ".join]-like joining: every element has to be a string. *)
Definition join (sep : string) (items : list value) : result string :=
  strings ← traverse (λ item, match item with VStr s => Ok s | _ => Raise TypeError end) items;
  Ok (String.concat sep strings).

(** Python's truth value of a dictionary value. *)
Definition truthy_value (v : value) : bool :=
  match v with
  | VStr EmptyString | VList [] | VDict [] => false
  | _ => true
  end.

Section Cli.

Variable E : Outside.

(** [repository.get_file_last_commit], of [repository.py]. *)
Variable get_file_last_commit : Repository → string → M record.

(** [get_repository]: of the errors of the construction, only
    [RepositoryNotSetup] gives [None]. *)
Definition get_repository (repository : string) : M (option Repository) :=
  try_except
    (repository ← (λ w, (new_Repository E repository w, w)); mret (Some repository))
    (λ e, match e with
          | RepositoryNotSetup => true
          | _ => false
          end)
    (mret None).

(** ["+" if spread & flag else "-"] *)
Definition sign (spread flag : Z) : string :=
  if Z.land spread flag =? 0 then "-" else "+".

(** [",".join(commit.get("branches", {}).get(key, ["-"])) or "-"] *)
Definition branches_column (key : string) (commit : record) : result string :=
  names ← match commit !! "branches" with
          | None => Ok ["-"]
          | Some (VDict branches) => Ok (default ["-"] (snd <$> List.find (λ kv, bool_decide (kv.1 = key)) branches))
          | Some _ => Raise AttributeError
          end;
  let column := String.concat "," names in
  Ok (if bool_decide (column = EmptyString) then "-" else column).

Definition get_status (repository : option Repository) (filename : string)
    (commit : record) : result string :=
  let spread :=
    match repository with
    | Some repository => get_commit_spread repository commit
    | None => 0
    end in
  let prop := sign spread CommitSpread.MINE_UNCOMMITTED in
  let prop := prop +:+ sign spread CommitSpread.MINE_ACTIVE_BRANCH in
  let prop := prop +:+ sign spread CommitSpread.MINE_OTHER_BRANCH in
  let prop := prop +:+ sign spread CommitSpread.REMOTE_MATCHING_BRANCH in
  let prop := prop +:+ sign spread CommitSpread.REMOTE_OTHER_BRANCH in
  let prop := prop +:+ sign spread CommitSpread.THEIR_OTHER_BRANCH in
  let prop := prop +:+ sign spread CommitSpread.THEIR_MATCHING_BRANCH in
  let prop := prop +:+ sign spread CommitSpread.THEIR_UNCOMMITTED in
  local_branches ← branches_column "local" commit;
  remote_branches ← branches_column "remote" commit;
  let author := default (default (VStr "-") (commit !! "user")) (commit !! "author") in
  let splits := [
    VStr prop;
    VStr filename;
    default (VStr "-") (commit !! "sha");
    VStr local_branches;
    VStr remote_branches;
    default (VStr "-") (commit !! "host");
    if truthy_value author then author else VStr "-"
  ] in
  join " " splits.

(** [validate_key_value]: [key, val = item.split("=")] needs exactly two
    pieces. *)
Fixpoint validate_key_value_loop (value : list string) (result : gmap string string)
  : Py.result (gmap string string) :=
  match value with
  | [] => Ok result
  | item :: value' =>
      match split "=" item with
      | [key; val] => validate_key_value_loop value' (<[key := val]> result)
      | _ => Raise ValueError
      end
  end.

Definition validate_key_value (value : list string) : result (gmap string string) :=
  validate_key_value_loop value ∅.

(** The loop of [run_status]; [repo_filename] lives across the passes. *)
Fixpoint run_status_loop (repo_filename : string) (filename : list string)
  : M (list string) :=
  match filename with
  | [] => mret []
  | _filename :: filename' =>
      let repo_filename :=
        if bool_decide (repo_filename = EmptyString) then _filename else repo_filename in
      repository ← get_repository repo_filename;
      commit ← match repository with
               | Some repository => get_file_last_commit repository _filename
               | None => mret ∅
               end;
      status ← lift (get_status repository _filename commit);
      statuses ← run_status_loop repo_filename filename';
      mret (status :: statuses)
  end.

(** [run_status]: what is echoed, for the [REPOSITORY] of the context (the
    empty string without one) and the file names. *)
Definition run_status (REPOSITORY : string) (filename : list string) : M string :=
  statuses ← run_status_loop REPOSITORY filename;
  mret (String.concat (String "010" EmptyString) statuses).

End Cli.
End Cli.

(** ** The two halves of the look at the history *)

Module History.
Section History.

Variable E : Outside.

(** The fetch, when one is due: the statements of [history_last_commit]
    up to the [try]. *)
Definition refresh (repository : Repository) (prune : bool) : M unit :=
  pulled ← ((λ w, (Ok (pulled_within E repository (pull_threshold repository) w), w)) : M bool);
  if pulled : bool then mret ()
  else try_except
         (Batch.fetch (origin_fetch E) repository prune;;
          Batch.fetch (remote_fetch E) repository prune)
         (λ e, match e with GitCommandError => true | _ => false end)
         (mret ()).

(** The log and its first commit: the statements after the [try]. *)
Definition newest (repository : Repository) (filename : string) : M commit_ref :=
  let args := ["--all"; "--remotes"; Batch.pretty_format; "--"; filename] in
  output ← ((λ w, (git_log E repository args w, w)) : M string);
  let file_commits := if bool_decide (output = EmptyString) then []
                      else split "010" (remove_char "034" output) in
  let sha := default EmptyString (head file_commits) in
  commit ← ((λ w, (repo_commit E repository sha w, w)) : M (option Commit));
  mret (match commit with
        | Some commit => Raw commit
        | None => Dict ∅
        end).

End History.
End History.

(** A state that differs from another in the fetches done since, none, one
    or two, all of one repository. *)
Definition fetched_for (repository : Repository) (prune : bool) (w w' : World)
    (fetched : list (string * bool)) : Prop :=
  w' = mkWorld (clock w) (local_json w) (net w) (sent w) (files w) (fetches w ++ fetched)
  ∧ (fetched = [] ∨ fetched = [(working_dir repository, prune)]
     ∨ fetched = [(working_dir repository, prune); (working_dir repository, prune)]).

(** ** More concrete states *)

Module MoreExamples.

(** A clone whose configuration turns the cache of the ledger off. *)
Definition uncached : Repository :=
  mkRepository "/work/game" "origin-url"
    (mkConfig (Some "https://api.jsonbin.io/v3/b/ledger")
              (Some {[ "Content-Type" := "text/plain"; "X-Master-Key" := "$KEY" ]})
              (Some 0) None None)
    [] (λ filename, filename) (λ _, 0).

(** Two claims of the same file with the same date, and an older commit. *)
Definition first_claim : record :=
  <["remote" := VStr "origin-url"]> (<["changes" := VList ["art/model.fbx"]]>
  (<["date" := VStr "2024-05-02 09:30:00"]> (<["clone" := VStr "/work/one"]> ∅))).

Definition second_claim : record :=
  <["remote" := VStr "origin-url"]> (<["changes" := VList ["art/model.fbx"]]>
  (<["date" := VStr "2024-05-02 09:30:00"]> (<["clone" := VStr "/work/two"]> ∅))).

Definition undated : record :=
  <["sha" := VStr "fff"]> (<["remote" := VStr "origin-url"]>
  (<["changes" := VList ["art/model.fbx"]]> ∅)).

(** A repository in which gitalong is not set up, and one whose
    configuration is refused. *)
Definition new_Repository (filename : string) (w : World) : result Repository :=
  if String.prefix "/work/plain/" filename then Raise RepositoryNotSetup
  else if String.prefix "/work/broken/" filename then Raise RepositoryInvalidConfig
  else Examples.new_Repository filename w.

(** The origin cannot be fetched for want of such a remote. *)
Definition outside : Outside :=
  mkOutside Examples.normpath Examples.expandvars new_Repository Examples.communicate
    (λ _ _ _, false)
    (λ _ _ _, Raise AttributeError)
    (λ _ _ _, Ok ())
    (λ _ _ _, Ok (String "034" ("0a1b2c" +:+ String "034" EmptyString)))
    (λ _ sha _, if bool_decide (sha = "0a1b2c") then Ok (Some Examples.root_commit)
                else Raise ValueError).

(** A commit as the resolution would enrich it. *)
Definition enriched : record :=
  <["sha" := VStr "abc"]> (<["host" := VStr "atelier"]> (<["author" := VStr "dana"]>
  (<["branches" := VDict [("local", ["main"; "rig"]); ("remote", [])]]> ∅))).

Definition get_file_last_commit (repository : Repository) (filename : string) : M record :=
  mret enriched.

(** The repository was pulled a moment ago, and the log of the file has two
    commits. *)
Definition two_commits : string :=
  String "034" ("0a1b2c" +:+ String "034" EmptyString)
  +:+ String "010" (String "034" ("9f8e7d" +:+ String "034" EmptyString)).

Definition recent : Outside :=
  mkOutside Examples.normpath Examples.expandvars new_Repository Examples.communicate
    (λ _ _ _, true)
    (λ _ _ _, Ok ())
    (λ _ _ _, Ok ())
    (λ _ _ _, Ok two_commits)
    (λ _ sha _, if bool_decide (sha = "0a1b2c") then Ok (Some Examples.root_commit)
                else Raise ValueError).

End MoreExamples.

(** * Properties *)

(** ** The store *)

Section StoreFacts.

Variable expandvars : string → string.

Lemma modified_within_total filename seconds w :
  ∃ b, JsonbinStore.modified_within filename seconds w = (Ok b, w).
Proof. unfold JsonbinStore.modified_within. eauto. Qed.

(** C6. Reading the [commits] of the store gives the cached ledger,
    without any other effect, when the cache file was modified within the
    pull threshold.  Otherwise the transport is asked: an answer with
    status 200 and a [record] is returned and becomes the cache, an answer
    with another status raises [StoreNotReachable] and leaves the cache. *)
Theorem commits_cached_or_fetched repository w :
  (JsonbinStore.fresh_cache repository w →
     JsonbinStore.commits expandvars repository w
     = (Ok (default [] (snd <$> local_json w !! JsonbinStore._local_json_path repository)), w))
  ∧ (¬ JsonbinStore.fresh_cache repository w → ∀ r rest, net w = r :: rest →
       let request := GET (JsonbinStore._url repository)
                          (expandvars <$> JsonbinStore._headers repository) in
       let '(result, w') := JsonbinStore.commits expandvars repository w in
       sent w' = sent w ++ [request]
       ∧ (status_code r = 200 → ∀ fetched, json_record r = Some fetched →
            result = Ok fetched
            ∧ local_json w' !! JsonbinStore._local_json_path repository = Some (clock w, fetched))
       ∧ (status_code r ≠ 200 →
            result = Raise StoreNotReachable ∧ local_json w' = local_json w)).
Proof.
  unfold JsonbinStore.fresh_cache, JsonbinStore.commits. split.
  - intros Hfresh. unfold mbind at 1, M_bind. rewrite Hfresh.
    unfold JsonbinStore._read_local_json.
    destruct (local_json w !! _) as [[mtime cached]|]; reflexivity.
  - intros Hstale r rest Hnet.
    destruct (modified_within_total (JsonbinStore._local_json_path repository)
                (pull_threshold repository) w) as [[|] Hb]; [contradiction|].
    unfold mbind at 1, M_bind. rewrite Hb.
    unfold mbind at 1. unfold JsonbinStore.send. rewrite Hnet.
    destruct (status_code r =? 200) eqn:Hstatus.
    + apply Z.eqb_eq in Hstatus.
      destruct (json_record r) as [fetched|] eqn:Hrecord; simpl.
      * split; [reflexivity|]. split; [|congruence].
        intros _ ? [= <-]. split; [reflexivity|]. apply lookup_insert_eq.
      * split; [reflexivity|]. split; [discriminate|congruence].
    + apply Z.eqb_neq in Hstatus. simpl.
      split; [reflexivity|]. split; [congruence|]. intros _. split; reflexivity.
Qed.

Lemma fresh_cache_iff repository w :
  JsonbinStore.fresh_cache repository w ↔
  ∃ mtime cached,
    local_json w !! JsonbinStore._local_json_path repository = Some (mtime, cached)
    ∧ clock w - mtime < pull_threshold repository.
Proof.
  unfold JsonbinStore.fresh_cache, JsonbinStore.modified_within. split.
  - intros [= H]. destruct (local_json w !! _) as [[mtime cached]|]; [|discriminate].
    exists mtime, cached. split; [reflexivity|]. by apply Z.ltb_lt.
  - intros (mtime & cached & -> & Hage). apply Z.ltb_lt in Hage. by rewrite Hage.
Qed.

(** C7. Writing a ledger that the transport accepts with status 200 makes
    it the cache: a read less than the pull threshold later returns it as
    it is and asks nothing of the transport, a read at or after the
    threshold sends a [GET].  With another status the write raises
    [StoreNotReachable] and the cache stays as it was. *)
Theorem set_commits_then_commits repository (L : ledger) w r rest :
  net w = r :: rest →
  let '(written, w1) := JsonbinStore.set_commits expandvars repository L w in
  (status_code r = 200 →
     written = Ok ()
     ∧ (∀ dt, 0 ≤ dt < pull_threshold repository →
          JsonbinStore.commits expandvars repository (tick dt w1) = (Ok L, tick dt w1))
     ∧ (∀ dt, pull_threshold repository ≤ dt →
          sent (JsonbinStore.commits expandvars repository (tick dt w1)).2
          = sent w1 ++ [GET (JsonbinStore._url repository)
                            (expandvars <$> JsonbinStore._headers repository)]))
  ∧ (status_code r ≠ 200 →
       written = Raise StoreNotReachable ∧ local_json w1 = local_json w).
Proof.
  intros Hnet. unfold JsonbinStore.set_commits.
  unfold mbind at 1, M_bind, JsonbinStore.send. rewrite Hnet.
  destruct (status_code r =? 200) eqn:Hstatus.
  - apply Z.eqb_eq in Hstatus. simpl. split; [|congruence]. intros _.
    split; [reflexivity|]. split.
    + intros dt [_ Hdt].
      destruct (commits_cached_or_fetched repository (tick dt
        (mkWorld (clock w)
           (<[JsonbinStore._local_json_path repository := (clock w, L)]> (local_json w))
           rest (sent w ++ [PUT (JsonbinStore._url repository)
                              (<["Content-Type" := "application/json"]>
                                 (expandvars <$> JsonbinStore._headers repository)) L])
           (files w) (fetches w)))) as [Hhit _].
      rewrite Hhit.
      * simpl. by rewrite lookup_insert_eq.
      * apply fresh_cache_iff. exists (clock w), L. simpl.
        split; [apply lookup_insert_eq | lia].
    + intros dt Hdt. unfold JsonbinStore.commits.
      unfold mbind at 1, M_bind, JsonbinStore.modified_within. simpl.
      rewrite lookup_insert_eq.
      replace (clock w + dt - clock w <? pull_threshold repository) with false
        by (symmetry; apply Z.ltb_ge; lia).
      unfold mbind at 1, M_bind, JsonbinStore.send. simpl.
      destruct rest as [|r' rest']; simpl; [reflexivity|].
      destruct (status_code r' =? 200); simpl; [|reflexivity].
      destruct (json_record r'); reflexivity.
  - apply Z.eqb_neq in Hstatus. simpl. split; [congruence|]. intros _. by split.
Qed.

End StoreFacts.

(** ** Sorting the tracked commits by date *)

Lemma string_leb_refl x : String.leb x x = true.
Proof.
  unfold String.leb.
  pose proof (proj2 (String_as_OT.cmp_eq x x) eq_refl) as Hxx.
  unfold String_as_OT.cmp in Hxx. by rewrite Hxx.
Qed.

Lemma string_leb_trans x y z :
  String.leb x y = true → String.leb y z = true → String.leb x z = true.
Proof.
  unfold String.leb. intros Hxy Hyz.
  destruct (String.compare x y) eqn:Exy; [| |discriminate].
  - apply String.compare_eq_iff in Exy. by subst.
  - destruct (String.compare y z) eqn:Eyz; [| |discriminate].
    + apply String.compare_eq_iff in Eyz. subst. by rewrite Exy.
    + apply String_as_OT.cmp_lt in Exy, Eyz.
      pose proof (String_as_OT.lt_trans _ _ _ Exy Eyz) as Hxz.
      apply String_as_OT.cmp_lt in Hxz. unfold String_as_OT.cmp in Hxz. by rewrite Hxz.
Qed.

Lemma string_ltb_leb x y : String.ltb x y = true → String.leb x y = true.
Proof. unfold String.ltb, String.leb. by destruct (String.compare x y). Qed.

Lemma string_not_ltb_leb x y : String.ltb y x = false → String.leb x y = true.
Proof.
  unfold String.ltb, String.leb. rewrite (String.compare_antisym x y).
  by destruct (String.compare y x).
Qed.

Lemma date_leb_refl c : has_date c = true → date_leb c c = true.
Proof.
  unfold has_date, date_leb. destruct (c !! "date") as [[x| |]|]; try discriminate.
  intros _. apply string_leb_refl.
Qed.

Lemma date_leb_trans a b c :
  date_leb a b = true → date_leb b c = true → date_leb a c = true.
Proof.
  unfold date_leb.
  destruct (a !! "date") as [[x| |]|], (b !! "date") as [[y| |]|],
           (c !! "date") as [[z| |]|]; try discriminate.
  apply string_leb_trans.
Qed.

Lemma less_than_dated a b :
  has_date a = true → has_date b = true →
  ∃ below, less_than (a !! "date") (b !! "date") = Ok below
    ∧ (below = true → by_date a b) ∧ (below = false → by_date b a).
Proof.
  unfold has_date, by_date, date_leb, less_than.
  destruct (a !! "date") as [[x| |]|], (b !! "date") as [[y| |]|]; try discriminate.
  intros _ _. exists (String.ltb x y). split; [reflexivity|].
  split; [apply string_ltb_leb | apply string_not_ltb_leb].
Qed.

Lemma insert_by_date x l :
  has_date x = true → forallb has_date l = true → Sorted by_date l →
  ∃ l', insert_by (λ commit, commit !! "date") x l = Ok l'
    ∧ l' ≡ₚ x :: l ∧ Sorted by_date l'.
Proof.
  intros Hx. induction l as [|y l IH]; simpl; intros Hl Hsorted.
  - exists [x]. repeat split; [done|]. repeat constructor.
  - apply andb_true_iff in Hl as [Hy Hl].
    destruct (less_than_dated y x Hy Hx) as (below & -> & Hlt & Hge). simpl.
    destruct below.
    + assert (Forall (by_date y) l) as Hrest.
      { apply Sorted_extends; [|done]. intros a b c. apply date_leb_trans. }
      apply Sorted_inv in Hsorted as [Hsorted Hhd].
      destruct (IH Hl Hsorted) as (l' & -> & Hperm & Hsorted'). simpl.
      exists (y :: l'). split; [done|]. split.
      * rewrite Hperm. apply perm_swap.
      * constructor; [done|].
        assert (Forall (by_date y) l') as Hall.
        { rewrite Hperm. constructor; [by apply Hlt|done]. }
        destruct l'; constructor. by inversion Hall.
    + exists (x :: y :: l). split; [done|]. split; [done|].
      constructor; [done|]. constructor. by apply Hge.
Qed.

Lemma sort_by_date l :
  forallb has_date l = true →
  ∃ sorted, sort_by (λ commit, commit !! "date") l = Ok sorted
    ∧ sorted ≡ₚ l ∧ Sorted by_date sorted.
Proof.
  induction l as [|x l IH]; simpl; intros Hl.
  - exists []. repeat split; [done|constructor].
  - apply andb_true_iff in Hl as [Hx Hl].
    destruct (IH Hl) as (sorted & -> & Hperm & Hsorted). simpl.
    assert (forallb has_date sorted = true) as Hdated.
    { apply forallb_forall. intros c Hc. rewrite forallb_forall in Hl. apply Hl.
      apply list_elem_of_In. rewrite <- Hperm. by apply list_elem_of_In. }
    destruct (insert_by_date x sorted Hx Hdated Hsorted) as (l' & -> & Hperm' & Hsorted').
    exists l'. split; [done|]. split; [|done]. by rewrite Hperm', Hperm.
Qed.

Lemma sorted_last_greatest l m :
  forallb has_date l = true → Sorted by_date l → last l = Some m →
  ∀ c, c ∈ l → by_date c m.
Proof.
  intros Hdated Hsorted Hlast.
  apply Sorted_StronglySorted in Hsorted; [|intros a b c; apply date_leb_trans].
  induction Hsorted as [|x l Hsorted IH Hall]; intros c Hc; [by apply elem_of_nil in Hc|].
  simpl in Hdated. apply andb_true_iff in Hdated as [Hx Hl].
  destruct l as [|y l'].
  - injection Hlast as <-. apply list_elem_of_singleton in Hc as ->.
    by apply date_leb_refl.
  - assert (last (y :: l') = Some m) as Hlast' by done.
    apply elem_of_cons in Hc as [->|Hc]; [|by apply IH].
    rewrite Forall_forall in Hall. apply Hall.
    apply last_Some in Hlast' as [l'' Heq]. rewrite Heq.
    apply elem_of_app. right. by apply list_elem_of_singleton.
Qed.

(** ** The tracked commits of a path *)

Section SelectionFacts.

Variable E : Outside.

Lemma elem_of_relevant_tracked_commits repository filename (tracked_commits : ledger) c :
  c ∈ Batch.relevant_tracked_commits E repository filename tracked_commits ↔
  c ∈ tracked_commits
  ∧ c !! "remote" = Some (VStr (remote_url repository))
  ∧ (∃ change, change ∈ changes_of c ∧ normpath E change = normpath E filename)
  ∧ (default false (cfg_track_uncommitted (config repository)) = true ∨ is_Some (c !! "sha")).
Proof.
  unfold Batch.relevant_tracked_commits. rewrite list_elem_of_bind. split.
  - intros (tracked_commit & Hin & Htracked).
    destruct (_ || _) eqn:Hskip; [by apply elem_of_nil in Hin|].
    apply orb_false_iff in Hskip as [Hsha Hremote].
    apply negb_false_iff, bool_decide_eq_true in Hremote.
    apply list_elem_of_bind in Hin as (change & Hin & Hchange).
    case_bool_decide as Hpath; [|by apply elem_of_nil in Hin].
    apply list_elem_of_singleton in Hin as ->.
    repeat split; [done|done|by exists change|].
    apply andb_false_iff in Hsha as [Htrack|Hsha].
    + left. by apply negb_false_iff in Htrack.
    + right. apply negb_false_iff in Hsha. by apply bool_decide_eq_true in Hsha.
  - intros (Htracked & Hremote & (change & Hchange & Hpath) & Hsha).
    exists c. split; [|done].
    assert ((negb (default false (cfg_track_uncommitted (config repository)))
             && negb (has_key "sha" c)) = false) as ->.
    { destruct Hsha as [->|Hsha]; [done|].
      unfold has_key. rewrite (bool_decide_eq_true_2 _ Hsha). apply andb_false_r. }
    rewrite (bool_decide_eq_true_2 _ Hremote). simpl.
    apply list_elem_of_bind. exists change. split; [|done].
    rewrite (bool_decide_eq_true_2 _ Hpath). by apply list_elem_of_singleton.
Qed.

End SelectionFacts.

Example tracked_commit_selection_example :
  Batch.relevant_tracked_commits Examples.outside Examples.game "art/model.fbx" Examples.tracked
  = [Examples.model_fbx_claim; Examples.model_fbx]
  ∧ Batch.last_tracked_commit [Examples.model_fbx_claim; Examples.model_fbx]
    = Ok Examples.model_fbx_claim.
Proof. split; vm_compute; reflexivity. Qed.

(** ** What the post-processing of command results does *)

Section BatchFacts.

Variable E : Outside.

Lemma branch_names_raises result : ∃ e, Batch.branch_names result = Raise e.
Proof.
  unfold Batch.branch_names. destruct result as [|c result]; simpl.
  - by exists IndexError.
  - by exists AttributeError.
Qed.

Lemma changed_lines_raises result : ∃ e, Batch.changed_lines result = Raise e.
Proof.
  unfold Batch.changed_lines. destruct result as [|c result]; simpl.
  - by exists IndexError.
  - by exists AttributeError.
Qed.

Lemma traverse_raises {A B} (f : A → result B) x xs :
  (∀ x, ∃ e, f x = Raise e) → ∃ e, traverse f (x :: xs) = Raise e.
Proof. intros Hf. simpl. destruct (Hf x) as [e ->]. by exists e. Qed.

Lemma run_command_world args w : ∃ r, Batch.run_command E args w = (r, w).
Proof.
  unfold Batch.run_command, Batch.create_subprocess_exec, mbind, M_bind, lift.
  destruct args as [|arg args]; [by eexists|].
  destruct (traverse _ (arg :: args)) as [argv|e]; [|by eexists].
  destruct (_ =? 0); by eexists.
Qed.

Lemma gather_world tasks w :
  ∃ r, Batch.gather E tasks w = (r, w)
    ∧ ∀ results, r = Ok results → length results = length tasks.
Proof.
  unfold Batch.gather. induction tasks as [|task tasks IH]; simpl.
  - exists (Ok []). split; [done|]. by intros ? [= <-].
  - unfold mbind at 1, M_bind. unfold Batch.await at 1.
    destruct (co_awaited task).
    + exists (Raise RuntimeError). by split.
    + destruct (run_command_world (co_args task) w) as [[result|e] ->].
      * unfold mbind, M_bind in *. destruct IH as ([results|e] & -> & Hlen).
        -- exists (Ok (result :: results)). split; [done|].
           intros ? [= <-]. simpl. f_equal. by apply Hlen.
        -- exists (Raise e). by split.
      * exists (Raise e). by split.
Qed.

Lemma get_commits_branches_nonempty commit commits remote w :
  ∃ e, Batch.get_commits_branches E (commit :: commits) remote w = (Raise e, w).
Proof.
  unfold Batch.get_commits_branches. simpl. unfold mbind at 1, M_bind.
  match goal with |- context [Batch.gather E ?tasks w] =>
    destruct (gather_world tasks w) as ([results|e] & -> & Hlen) end.
  - specialize (Hlen results eq_refl). destruct results as [|result results]; [done|].
    unfold mbind at 1, M_bind, lift.
    destruct (traverse_raises Batch.branch_names result results branch_names_raises) as [e ->].
    by exists e.
  - by exists e.
Qed.

Lemma get_commits_branches_local commit commits w :
  Batch.get_commits_branches E (commit :: commits) false w = (Raise TypeError, w).
Proof.
  unfold Batch.get_commits_branches. simpl.
  unfold mbind at 1, M_bind, Batch.gather. simpl.
  unfold mbind at 1, M_bind, Batch.await. simpl.
  unfold Batch.run_command, mbind at 1, M_bind, Batch.create_subprocess_exec.
  unfold mbind at 1, M_bind, lift. simpl.
  by destruct (default (VStr EmptyString) (commit !! "clone")).
Qed.

Lemma get_commit_changes_loop_dicts (dicts : ledger) changes_list tasks :
  Batch.get_commit_changes_loop (Dict <$> dicts) changes_list tasks
  = (changes_list ++ ((λ d : record, default (VList []) (d !! "changes")) <$> dicts), tasks).
Proof.
  revert changes_list. induction dicts as [|d dicts IH]; intros changes_list; simpl.
  - by rewrite app_nil_r.
  - rewrite IH. by rewrite <- app_assoc.
Qed.

Lemma get_commit_changes_loop_raw commits changes_list tasks :
  tasks ≠ [] ∨ (∃ commit, Raw commit ∈ commits) →
  (Batch.get_commit_changes_loop commits changes_list tasks).2 ≠ [].
Proof.
  revert changes_list tasks.
  induction commits as [|[d|commit] commits IH]; intros changes_list tasks Hraw; simpl.
  - destruct Hraw as [?|[commit Hin]]; [done|by apply elem_of_nil in Hin].
  - apply IH. destruct Hraw as [?|[commit Hin]]; [by left|right].
    apply elem_of_cons in Hin as [?|?]; [done|by exists commit].
  - apply IH. left. by destruct tasks.
Qed.

Lemma dicts_or_raw (commits : list commit_ref) :
  (∃ dicts : ledger, commits = Dict <$> dicts) ∨ (∃ commit, Raw commit ∈ commits).
Proof.
  induction commits as [|[d|commit] commits IH].
  - left. by exists [].
  - destruct IH as [[dicts ->]|[commit Hin]].
    + left. by exists (d :: dicts).
    + right. exists commit. by apply elem_of_cons; right.
  - right. exists commit. by apply elem_of_cons; left.
Qed.

Lemma get_commit_changes_dicts (dicts : ledger) w :
  Batch.get_commit_changes E (Dict <$> dicts) w
  = (Ok ((λ d : record, default (VList []) (d !! "changes")) <$> dicts), w).
Proof.
  unfold Batch.get_commit_changes. rewrite get_commit_changes_loop_dicts. simpl.
  unfold mbind, M_bind, mret, M_ret. simpl. by rewrite app_nil_r.
Qed.

Lemma get_commit_changes_raw commits w :
  (∃ commit, Raw commit ∈ commits) →
  ∃ e, Batch.get_commit_changes E commits w = (Raise e, w).
Proof.
  intros Hraw. unfold Batch.get_commit_changes.
  pose proof (get_commit_changes_loop_raw commits [] [] (or_intror Hraw)) as Htasks.
  destruct (Batch.get_commit_changes_loop commits [] []) as [changes_list tasks].
  simpl in Htasks. unfold mbind at 1, M_bind.
  destruct (gather_world tasks w) as ([results|e] & -> & Hlen); [|by exists e].
  specialize (Hlen results eq_refl).
  destruct results as [|result results]; [by destruct tasks|].
  unfold mbind at 1, M_bind, lift.
  destruct (traverse_raises Batch.changed_lines result results changed_lines_raises) as [e ->].
  by exists e.
Qed.

Lemma get_commits_dicts_dicts (dicts : ledger) w :
  Batch.get_commits_dicts E (Dict <$> dicts) w = (Ok dicts, w).
Proof.
  unfold Batch.get_commits_dicts, mbind, M_bind. rewrite get_commit_changes_dicts.
  unfold mret, M_ret. do 2 f_equal.
  induction dicts as [|d dicts IH]; simpl; [done|]. by f_equal.
Qed.

Lemma get_commits_dicts_raw commits w :
  (∃ commit, Raw commit ∈ commits) →
  ∃ e, Batch.get_commits_dicts E commits w = (Raise e, w).
Proof.
  intros Hraw. unfold Batch.get_commits_dicts, mbind, M_bind.
  destruct (get_commit_changes_raw commits w Hraw) as [e ->]. by exists e.
Qed.

Lemma for_each_length {A B} (body : A → M B) xs w ys w' :
  for_each body xs w = (Ok ys, w') → length ys = length xs.
Proof.
  revert w ys. induction xs as [|x xs IH]; simpl; intros w ys.
  - by intros [= <- _].
  - unfold mbind, M_bind, mret, M_ret.
    destruct (body x w) as [[y|e] w1]; [|done].
    destruct (for_each body xs w1) as [[ys'|e] w2] eqn:Hrest; [|done].
    intros [= <- <-]. simpl. f_equal. by eapply IH.
Qed.

(** Whatever the collaborators do, the resolution of one file or more
    ends in an error. *)
Lemma get_files_last_commits_nonempty filename filenames prune w :
  ∃ e w', Batch.get_files_last_commits E (filename :: filenames) prune w = (Raise e, w').
Proof.
  unfold Batch.get_files_last_commits. unfold mbind at 1, M_bind.
  destruct (for_each _ _ w) as [[last_commits|e] w1] eqn:Hloop; [|by exists e, w1].
  apply for_each_length in Hloop.
  unfold mbind at 1, M_bind.
  destruct (dicts_or_raw last_commits) as [[dicts ->]|Hraw].
  - rewrite get_commits_dicts_dicts. rewrite length_fmap in Hloop.
    destruct dicts as [|d dicts]; [done|].
    unfold mbind at 1, M_bind.
    destruct (get_commits_branches_nonempty d dicts false w1) as [e ->]. by exists e, w1.
  - destruct (get_commits_dicts_raw last_commits w1 Hraw) as [e ->]. by exists e, w1.
Qed.

End BatchFacts.

(** ** Claiming a file *)

Section ClaimFacts.

Variable E : Outside.

Lemma get_repository_safe_managed filename w repository :
  new_Repository E filename w = Ok repository →
  Batch.get_repository_safe E filename w = (Ok (Some repository), w).
Proof.
  intros H. unfold Batch.get_repository_safe, try_except, mbind, M_bind. by rewrite H.
Qed.

Lemma get_repository_safe_unmanaged filename w :
  new_Repository E filename w = Raise InvalidGitRepositoryError
  ∨ new_Repository E filename w = Raise RepositoryNotSetup →
  Batch.get_repository_safe E filename w = (Ok None, w).
Proof.
  unfold Batch.get_repository_safe, try_except, mbind, M_bind. by intros [->| ->].
Qed.

Lemma get_repository_safe_world filename w :
  (∃ repository, new_Repository E filename w = Ok repository
     ∧ Batch.get_repository_safe E filename w = (Ok (Some repository), w))
  ∨ Batch.get_repository_safe E filename w = (Ok None, w)
  ∨ ∃ e, Batch.get_repository_safe E filename w = (Raise e, w).
Proof.
  unfold Batch.get_repository_safe, try_except, mbind, M_bind.
  destruct (new_Repository E filename w) as [repository|e].
  - left. by exists repository.
  - right. destruct e; try (by left); right; by eexists.
Qed.

(** What the lines after the resolution decide, given a last commit: the
    commit is withheld (the empty record) exactly when the spread has the
    [MINE_ACTIVE_BRANCH] or the [MINE_UNCOMMITTED] bit, or the last commit
    is itself empty, whatever the other bits; the file, if it is on disk
    and permissions may be modified, is then writable.  Otherwise the last
    commit comes back and no permission changes. *)
Theorem claim_file_when_mine filename last_commit w repository :
  new_Repository E filename w = Ok repository →
  let spread := get_commit_spread repository last_commit in
  let mine :=
    (Z.land spread CommitSpread.MINE_ACTIVE_BRANCH =? CommitSpread.MINE_ACTIVE_BRANCH)
    || (Z.land spread CommitSpread.MINE_UNCOMMITTED =? CommitSpread.MINE_UNCOMMITTED) in
  ∃ missing_commit w',
    Batch.claim_file E filename last_commit w = (Ok missing_commit, w')
    ∧ (missing_commit = ∅ ↔ mine = true ∨ last_commit = ∅)
    ∧ (missing_commit = ∅ → is_Some (files w !! filename) →
       cfg_modify_permissions (config repository) = Some true →
       files w' !! filename = Some false)
    ∧ (missing_commit ≠ ∅ → missing_commit = last_commit ∧ files w' = files w).
Proof.
  intros Hrepository spread mine. unfold Batch.claim_file.
  unfold mbind at 1, M_bind. rewrite (get_repository_safe_managed _ _ _ Hrepository).
  fold spread. fold mine. unfold mbind, M_bind, mret, M_ret, Batch.path_exists.
  set (missing_commit := if mine then ∅ else last_commit).
  destruct (bool_decide (is_Some (files w !! filename))
            && bool_decide (missing_commit = ∅)
            && default false (cfg_modify_permissions (config repository))) eqn:Hset.
  - apply andb_true_iff in Hset as [Hset Hmodify].
    apply andb_true_iff in Hset as [Hpresent Hnone].
    apply bool_decide_eq_true in Hpresent, Hnone.
    simpl. eexists _, _. split; [reflexivity|]. split; [|split].
    + subst missing_commit. destruct mine; [by intuition|]. split; [by right|done].
    + intros _ [read_only Hfile] _. simpl. rewrite lookup_alter_eq, Hfile. simpl.
      f_equal. apply bool_decide_eq_false_2. intros Hne. by apply Hne.
    + done.
  - simpl. eexists _, _. split; [reflexivity|]. split; [|split].
    + subst missing_commit. destruct mine; [by intuition|]. split; [by right|].
      by intros [?|?].
    + intros Hnone Hpresent Hmodify. exfalso.
      rewrite (bool_decide_eq_true_2 _ Hpresent), (bool_decide_eq_true_2 _ Hnone),
        Hmodify in Hset. done.
    + intros Hsome. split; [|done]. subst missing_commit. by destruct mine.
Qed.

(** C10. [claim_files] changes the permissions of a file only if the file
    is on disk and its repository has [modify_permissions] set: a file that
    is not on disk, or whose repository does not allow it, keeps its
    permissions, and so does every other file. *)
Theorem claim_file_permissions filename last_commit w :
  let w' := (Batch.claim_file E filename last_commit w).2 in
  (∀ f, files w' !! f ≠ files w !! f →
        f = filename ∧ is_Some (files w !! filename)
        ∧ ∃ repository, new_Repository E filename w = Ok repository
            ∧ cfg_modify_permissions (config repository) = Some true)
  ∧ (files w !! filename = None → files w' = files w)
  ∧ ((∀ repository, new_Repository E filename w = Ok repository →
        cfg_modify_permissions (config repository) ≠ Some true) →
     files w' = files w).
Proof.
  intros w'.
  assert (∀ f, files w' !! f ≠ files w !! f →
            f = filename ∧ is_Some (files w !! filename)
            ∧ ∃ repository, new_Repository E filename w = Ok repository
                ∧ cfg_modify_permissions (config repository) = Some true) as Honly.
  { subst w'. unfold Batch.claim_file. unfold mbind at 1, M_bind.
    destruct (get_repository_safe_world filename w)
      as [(repository & Hrepository & ->)|[-> |[e ->]]]; [| |done].
    - unfold mbind, M_bind, mret, M_ret, Batch.path_exists.
      match goal with |- context [if ?c then _ else _] => destruct c eqn:Hset end;
        [|done].
      apply andb_true_iff in Hset as [Hset Hmodify].
      apply andb_true_iff in Hset as [Hpresent _].
      apply bool_decide_eq_true in Hpresent.
      simpl. intros f Hf. destruct (decide (f = filename)) as [->|Hne].
      + split; [done|]. split; [done|]. exists repository. split; [done|].
        by destruct (cfg_modify_permissions (config repository)) as [[|]|].
      + by rewrite lookup_alter_ne in Hf.
    - unfold mbind, M_bind, mret, M_ret, Batch.path_exists.
      by rewrite andb_false_r. }
  split; [exact Honly|]. split.
  - intros Habsent. apply map_eq. intros f.
    destruct (decide (files w' !! f = files w !! f)) as [|Hf]; [done|].
    destruct (Honly f Hf) as (_ & [? Hpresent] & _). congruence.
  - intros Hdisabled. apply map_eq. intros f.
    destruct (decide (files w' !! f = files w !! f)) as [|Hf]; [done|].
    destruct (Honly f Hf) as (_ & _ & repository & Hrepository & Hmodify).
    by destruct (Hdisabled repository Hrepository).
Qed.

End ClaimFacts.

(** ** The resolution leaves the permissions alone *)

Section FrameFacts.

Variable E : Outside.

Lemma keeps_files_ret {A} (a : A) : keeps_files (mret a).
Proof. done. Qed.

Lemma keeps_files_lift {A} (r : result A) : keeps_files (lift r).
Proof. done. Qed.

Lemma keeps_files_bind {A B} (m : M A) (k : A → M B) :
  keeps_files m → (∀ a, keeps_files (k a)) → keeps_files (m ≫= k).
Proof.
  intros Hm Hk w. unfold mbind, M_bind. specialize (Hm w).
  destruct (m w) as [[a|e] w1]; simpl in *; [|done]. by rewrite Hk.
Qed.

Lemma keeps_files_try_except {A} (m h : M A) handled :
  keeps_files m → keeps_files h → keeps_files (try_except m handled h).
Proof.
  intros Hm Hh w. unfold try_except. specialize (Hm w).
  destruct (m w) as [[a|e] w1]; simpl in *; [done|].
  destruct (handled e); simpl; [|done]. by rewrite Hh.
Qed.

Lemma keeps_files_for_each {A B} (body : A → M B) xs :
  (∀ x, keeps_files (body x)) → keeps_files (for_each body xs).
Proof.
  intros Hbody. induction xs as [|x xs IH]; simpl; [done|].
  apply keeps_files_bind; [done|]. intros y.
  apply keeps_files_bind; [done|]. intros ys. done.
Qed.

Lemma keeps_files_unchanged {A} (m : M A) :
  (∀ w, ∃ r, m w = (r, w)) → keeps_files m.
Proof. intros Hm w. by destruct (Hm w) as [r ->]. Qed.

Lemma commits_keeps_files repository :
  keeps_files (JsonbinStore.commits (expandvars E) repository).
Proof.
  unfold JsonbinStore.commits. apply keeps_files_bind; [done|]. intros [|]; [done|].
  apply keeps_files_bind.
  { intros w. unfold JsonbinStore.send. by destruct (net w). }
  intros r. destruct (_ =? 200); [|done].
  apply keeps_files_bind; [done|]. intros commits. by apply keeps_files_bind.
Qed.

Lemma set_commits_keeps_files repository commits :
  keeps_files (JsonbinStore.set_commits (expandvars E) repository commits).
Proof.
  unfold JsonbinStore.set_commits. apply keeps_files_bind.
  { intros w. unfold JsonbinStore.send. by destruct (net w). }
  intros r. by destruct (_ =? 200).
Qed.

Lemma gather_keeps_files tasks : keeps_files (Batch.gather E tasks).
Proof.
  apply keeps_files_unchanged. intros w.
  destruct (gather_world E tasks w) as (r & -> & _). by exists r.
Qed.

Lemma get_commits_branches_loop_keeps_files remote commits tasks branches_list :
  keeps_files (Batch.get_commits_branches_loop E remote commits tasks branches_list).
Proof.
  revert tasks branches_list.
  induction commits as [|commit commits IH]; intros tasks branches_list; simpl; [done|].
  apply keeps_files_bind; [apply gather_keeps_files|].
  intros results. apply keeps_files_bind; [done|]. intros names. apply IH.
Qed.

Lemma get_commits_dicts_keeps_files commits :
  keeps_files (Batch.get_commits_dicts E commits).
Proof.
  unfold Batch.get_commits_dicts, Batch.get_commit_changes.
  apply keeps_files_bind; [|done].
  destruct (Batch.get_commit_changes_loop commits [] []) as [changes_list tasks].
  apply keeps_files_bind; [apply gather_keeps_files|].
  intros results. by apply keeps_files_bind.
Qed.

Lemma fetch_keeps_files by_ repository prune :
  keeps_files (Batch.fetch by_ repository prune).
Proof. intros w. unfold Batch.fetch. by destruct (by_ repository prune w). Qed.

Lemma file_last_commit_keeps_files prune filename :
  keeps_files (Batch.file_last_commit E prune filename).
Proof.
  unfold Batch.file_last_commit. apply keeps_files_bind.
  { apply keeps_files_unchanged. intros w.
    destruct (get_repository_safe_world E filename w) as [(r & _ & ->)|[-> |[e ->]]];
      by eexists. }
  intros [repository|]; [|done].
  apply keeps_files_bind; [apply commits_keeps_files|]. intros tracked_commits.
  apply keeps_files_bind.
  - destruct (bool_decide _); [done|].
    apply keeps_files_bind; [done|]. intros last_commit.
    unfold Batch.untrack_if_pushed. apply keeps_files_bind.
    { apply get_commits_branches_loop_keeps_files. }
    intros branches_list. apply keeps_files_bind; [done|]. intros [|]; [|done].
    apply keeps_files_bind; [done|]. intros tracked_commits'.
    apply keeps_files_bind; [apply set_commits_keeps_files|done].
  - intros last_commit. destruct (bool_decide _); [|done].
    unfold Batch.history_last_commit. apply keeps_files_bind; [done|]. intros pulled.
    apply keeps_files_bind.
    { destruct pulled; [done|]. apply keeps_files_try_except; [|done].
      apply keeps_files_bind; [apply fetch_keeps_files|].
      intros _. apply fetch_keeps_files. }
    intros _. apply keeps_files_bind; [done|]. intros output.
    by apply keeps_files_bind.
Qed.

(** Within [claim_files], the resolution of the last commit changes no
    permission: what [claim_file] does afterwards is all that can. *)
Lemma get_files_last_commits_keeps_files filenames prune :
  keeps_files (Batch.get_files_last_commits E filenames prune).
Proof.
  unfold Batch.get_files_last_commits.
  apply keeps_files_bind.
  { apply keeps_files_for_each. intros filename. apply file_last_commit_keeps_files. }
  intros last_commits. apply keeps_files_bind; [apply get_commits_dicts_keeps_files|].
  intros last_commit_dicts.
  apply keeps_files_bind; [apply get_commits_branches_loop_keeps_files|].
  intros local_branches_list.
  apply keeps_files_bind; [apply get_commits_branches_loop_keeps_files|done].
Qed.

End FrameFacts.

(** ** Where the resolution stops *)

Section ResolutionFacts.

Variable E : Outside.

(** C4. [get_commits_branches] does not return one set of branch names per
    commit: for a list of one commit or more it ends in an error, whatever
    the branch queries print.  Without [remote] the error is the
    [TypeError] of the list among the arguments of the command. *)
Theorem get_commits_branches_raises commit commits w :
  Batch.get_commits_branches E [] true w = (Ok [], w)
  ∧ Batch.get_commits_branches E [] false w = (Ok [], w)
  ∧ (∃ e, Batch.get_commits_branches E (commit :: commits) true w = (Raise e, w))
  ∧ Batch.get_commits_branches E (commit :: commits) false w = (Raise TypeError, w).
Proof.
  split; [done|]. split; [done|].
  split; [apply get_commits_branches_nonempty | apply get_commits_branches_local].
Qed.

(** C9. [get_commit_changes] gives the stored [changes] of dictionaries, in
    their order, but no result for a raw commit: a list with a raw commit in
    it ends in an error, whatever the diff prints. *)
Theorem get_commit_changes_raises commits w :
  (∀ dicts : ledger, commits = Dict <$> dicts →
     Batch.get_commit_changes E commits w
     = (Ok ((λ d : record, default (VList []) (d !! "changes")) <$> dicts), w))
  ∧ ((∃ commit, Raw commit ∈ commits) →
     ∃ e, Batch.get_commit_changes E commits w = (Raise e, w)).
Proof.
  split.
  - intros dicts ->. apply get_commit_changes_dicts.
  - apply get_commit_changes_raw.
Qed.

Lemma for_each_one {A B} (body : A → M B) x w :
  for_each body [x] w
  = match body x w with
    | (Ok y, w') => (Ok [y], w')
    | (Raise e, w') => (Raise e, w')
    end.
Proof.
  simpl. unfold mbind, M_bind, mret, M_ret. by destruct (body x w) as [[y|e] w'].
Qed.

(** C5. A path outside every repository gets the empty record in the loop
    of [get_files_last_commits], and yet the call does not return: the
    branch query for that record is refused with a [TypeError], alone or in
    a batch. *)
Theorem unmanaged_file_raises filename prune w :
  new_Repository E filename w = Raise InvalidGitRepositoryError
  ∨ new_Repository E filename w = Raise RepositoryNotSetup →
  Batch.file_last_commit E prune filename w = (Ok (Dict ∅), w)
  ∧ Batch.get_files_last_commits E [filename] prune w = (Raise TypeError, w)
  ∧ ∀ filenames, ∃ e w',
      Batch.get_files_last_commits E (filename :: filenames) prune w = (Raise e, w').
Proof.
  intros Hunmanaged.
  assert (Batch.file_last_commit E prune filename w = (Ok (Dict ∅), w)) as Hloop.
  { unfold Batch.file_last_commit, mbind, M_bind.
    by rewrite (get_repository_safe_unmanaged E _ _ Hunmanaged). }
  split; [done|]. split; [|intros; apply get_files_last_commits_nonempty].
  unfold Batch.get_files_last_commits. unfold mbind at 1, M_bind.
  rewrite for_each_one, Hloop.
  unfold mbind at 1, M_bind.
  change [Dict ∅] with (Dict <$> [(∅ : record)]). rewrite get_commits_dicts_dicts.
  unfold mbind at 1, M_bind. by rewrite get_commits_branches_local.
Qed.

(** C3. A tracked commit with a [sha] that is selected for a path is not
    removed from the tracked commits: the query for its remote branches
    ends in an error before anything is written back, and so does the
    call, in the state that the reading of the tracked commits left. *)
Theorem pushed_commit_raises repository filename prune w w1
    (tracked_commits : ledger) last_commit :
  new_Repository E filename w = Ok repository →
  JsonbinStore.commits (expandvars E) repository w = (Ok tracked_commits, w1) →
  let candidates :=
    Batch.relevant_tracked_commits E repository (get_relative_path repository filename)
                                   tracked_commits in
  candidates ≠ [] →
  Batch.last_tracked_commit candidates = Ok last_commit →
  is_Some (last_commit !! "sha") →
  ∃ e, Batch.untrack_if_pushed E repository tracked_commits last_commit w1 = (Raise e, w1)
    ∧ Batch.get_files_last_commits E [filename] prune w = (Raise e, w1).
Proof.
  intros Hrepository Hread candidates Hsome Hlast _.
  destruct (get_commits_branches_nonempty E last_commit [] true w1) as [e Hquery].
  assert (Batch.untrack_if_pushed E repository tracked_commits last_commit w1 = (Raise e, w1))
    as Huntrack.
  { unfold Batch.untrack_if_pushed. unfold mbind at 1, M_bind. by rewrite Hquery. }
  exists e. split; [done|].
  unfold Batch.get_files_last_commits. unfold mbind at 1, M_bind. rewrite for_each_one.
  unfold Batch.file_last_commit. unfold mbind at 1, M_bind.
  rewrite (get_repository_safe_managed E _ _ _ Hrepository).
  unfold mbind at 1, M_bind. rewrite Hread.
  fold candidates. rewrite (bool_decide_eq_false_2 _ Hsome).
  unfold mbind at 1, M_bind. unfold mbind at 1, M_bind, lift. rewrite Hlast.
  by rewrite Huntrack.
Qed.

(** What the branch for a path without tracked commit does by itself: when
    the repository was pulled within the threshold, or the fetch fails
    with a git command error, the state stays as it is and the first
    commit of the log output is the last commit. *)
Lemma history_last_commit_newest repository filename prune w output sha rest commit :
  pulled_within E repository (pull_threshold repository) w = true
  ∨ origin_fetch E repository prune w = Raise GitCommandError →
  git_log E repository ["--all"; "--remotes"; Batch.pretty_format; "--"; filename] w
  = Ok output →
  output ≠ EmptyString →
  split "010" (remove_char "034" output) = sha :: rest →
  repo_commit E repository sha w = Ok (Some commit) →
  Batch.history_last_commit E repository filename prune w = (Ok (Raw commit), w).
Proof.
  intros Hfetch Hlog Houtput Hsplit Hcommit. unfold Batch.history_last_commit.
  unfold mbind at 1, M_bind. cbv beta iota. unfold mbind at 1, M_bind.
  destruct (pulled_within E repository (pull_threshold repository) w) eqn:Hpulled.
  - unfold mret at 1, M_ret. unfold mbind at 1, M_bind. rewrite Hlog.
    rewrite (bool_decide_eq_false_2 _ Houtput), Hsplit. simpl.
    unfold mbind, M_bind. by rewrite Hcommit.
  - destruct Hfetch as [|Hfetch]; [done|].
    unfold try_except at 1. unfold mbind at 1, M_bind. unfold Batch.fetch at 1.
    rewrite Hfetch. unfold mret at 1, M_ret. unfold mbind at 1, M_bind. rewrite Hlog.
    rewrite (bool_decide_eq_false_2 _ Houtput), Hsplit. simpl.
    unfold mbind, M_bind. by rewrite Hcommit.
Qed.

Lemma history_last_commit_fetches repository filename prune w :
  fetches (Batch.history_last_commit E repository filename prune w).2 ≠ fetches w →
  pulled_within E repository (pull_threshold repository) w = false.
Proof.
  unfold Batch.history_last_commit. unfold mbind at 1, M_bind.
  destruct (pulled_within E repository (pull_threshold repository) w); [|done].
  unfold mbind at 1, M_bind, mret at 1, M_ret. unfold mbind at 1, M_bind.
  destruct (git_log E repository _ w) as [output|e]; [|done].
  unfold mbind, M_bind. by destruct (repo_commit E repository _ w) as [[commit|]|e].
Qed.

(** C8. For a path without tracked commit the newest commit of the log is
    found (see [history_last_commit_newest]) and yet not returned: the
    changes of that raw commit cannot be resolved and the call ends in an
    error. *)
Theorem history_commit_raises repository filename prune w w1 w2
    (tracked_commits : ledger) commit :
  new_Repository E filename w = Ok repository →
  JsonbinStore.commits (expandvars E) repository w = (Ok tracked_commits, w1) →
  Batch.relevant_tracked_commits E repository (get_relative_path repository filename)
                                 tracked_commits = [] →
  Batch.history_last_commit E repository (get_relative_path repository filename) prune w1
  = (Ok (Raw commit), w2) →
  ∃ e, Batch.get_files_last_commits E [filename] prune w = (Raise e, w2).
Proof.
  intros Hrepository Hread Hnone Hhistory.
  assert (Batch.file_last_commit E prune filename w = (Ok (Raw commit), w2)) as Hloop.
  { unfold Batch.file_last_commit. unfold mbind at 1, M_bind.
    rewrite (get_repository_safe_managed E _ _ _ Hrepository).
    unfold mbind at 1, M_bind. rewrite Hread, Hnone. simpl.
    unfold mbind at 1, M_bind, mret at 1, M_ret. simpl. done. }
  destruct (get_commits_dicts_raw E [Raw commit] w2) as [e Hdicts].
  { exists commit. by apply list_elem_of_singleton. }
  exists e. unfold Batch.get_files_last_commits. unfold mbind at 1, M_bind.
  rewrite for_each_one, Hloop. unfold mbind at 1, M_bind. by rewrite Hdicts.
Qed.

(** C1. For a path of a repository, the candidates of
    [get_files_last_commits] are exactly the tracked commits read from the
    store whose [remote] is the repository's remote URL, one of whose
    [changes] is, once normalised, the normalised path relative to the
    repository, and which have a [sha] unless [track_uncommitted] is set.
    Without candidate the loop turns to the history of the path.  With
    candidates (their dates being strings) it goes on with one of them
    whose date is the greatest: this is the commit whose remote branches
    are queried next, and the outcome of that query is the outcome of the
    call. *)
Theorem tracked_commit_selection repository filename prune (tracked_commits : ledger) w w1 :
  new_Repository E filename w = Ok repository →
  JsonbinStore.commits (expandvars E) repository w = (Ok tracked_commits, w1) →
  let relative := get_relative_path repository filename in
  let candidates := Batch.relevant_tracked_commits E repository relative tracked_commits in
  (∀ c, c ∈ candidates ↔
        c ∈ tracked_commits
        ∧ c !! "remote" = Some (VStr (remote_url repository))
        ∧ (∃ change, change ∈ changes_of c ∧ normpath E change = normpath E relative)
        ∧ (default false (cfg_track_uncommitted (config repository)) = true
           ∨ is_Some (c !! "sha")))
  ∧ (candidates = [] →
       Batch.file_last_commit E prune filename w
       = Batch.history_last_commit E repository relative prune w1)
  ∧ (candidates ≠ [] → forallb has_date candidates = true →
       ∃ last_commit,
         Batch.last_tracked_commit candidates = Ok last_commit
         ∧ last_commit ∈ candidates
         ∧ (∀ c, c ∈ candidates → date_leb c last_commit = true)
         ∧ Batch.file_last_commit E prune filename w
           = (last_commit ← Batch.untrack_if_pushed E repository tracked_commits last_commit;
              if bool_decide (last_commit = ∅)
              then Batch.history_last_commit E repository relative prune
              else mret (Dict last_commit)) w1
         ∧ ∃ e, Batch.get_commits_branches E [last_commit] true w1 = (Raise e, w1)
             ∧ Batch.file_last_commit E prune filename w = (Raise e, w1)
             ∧ Batch.get_files_last_commits E [filename] prune w = (Raise e, w1)).
Proof.
  intros Hrepository Hread relative candidates.
  split; [apply elem_of_relevant_tracked_commits|].
  assert (Batch.file_last_commit E prune filename w
          = (last_commit ←
               (if bool_decide (candidates = []) then mret ∅
                else last_commit ← lift (Batch.last_tracked_commit candidates);
                     Batch.untrack_if_pushed E repository tracked_commits last_commit);
             if bool_decide (last_commit = ∅)
             then Batch.history_last_commit E repository relative prune
             else mret (Dict last_commit)) w1) as Hloop.
  { unfold Batch.file_last_commit. unfold mbind at 1, M_bind.
    rewrite (get_repository_safe_managed E _ _ _ Hrepository).
    unfold mbind at 1, M_bind. by rewrite Hread. }
  split.
  - intros Hnone. rewrite Hloop, (bool_decide_eq_true_2 _ Hnone).
    unfold mbind at 1, M_bind, mret at 1, M_ret.
    by rewrite (bool_decide_eq_true_2 _ eq_refl).
  - intros Hsome Hdated.
    assert (∃ last_commit, Batch.last_tracked_commit candidates = Ok last_commit
              ∧ last_commit ∈ candidates
              ∧ ∀ c, c ∈ candidates → date_leb c last_commit = true)
      as (last_commit & Hlast & Hin & Hgreatest).
    { unfold Batch.last_tracked_commit.
      destruct (sort_by_date candidates Hdated) as (sorted & -> & Hperm & Hsorted). simpl.
      destruct (last sorted) as [last_commit|] eqn:Hlast.
      - exists last_commit. split; [done|].
        assert (forallb has_date sorted = true) as Hdated'.
        { apply forallb_forall. intros c Hc. rewrite forallb_forall in Hdated.
          apply Hdated. apply list_elem_of_In. rewrite <- Hperm. by apply list_elem_of_In. }
        split.
        + rewrite <- Hperm. apply last_Some in Hlast as [l' ->].
          apply elem_of_app. right. by apply list_elem_of_singleton.
        + intros c Hc.
          apply (sorted_last_greatest sorted last_commit Hdated' Hsorted Hlast).
          by rewrite Hperm.
      - apply last_None in Hlast. subst sorted. by apply Permutation_nil_l in Hperm. }
    exists last_commit. split; [done|]. split; [done|]. split; [done|].
    assert (Batch.file_last_commit E prune filename w
            = (last_commit ← Batch.untrack_if_pushed E repository tracked_commits last_commit;
               if bool_decide (last_commit = ∅)
               then Batch.history_last_commit E repository relative prune
               else mret (Dict last_commit)) w1) as Hgoes_on.
    { rewrite Hloop, (bool_decide_eq_false_2 _ Hsome). unfold mbind, M_bind, lift.
      by rewrite Hlast. }
    split; [exact Hgoes_on|].
    destruct (get_commits_branches_nonempty E last_commit [] true w1) as [e Hquery].
    exists e. split; [done|].
    assert (Batch.file_last_commit E prune filename w = (Raise e, w1)) as Hraise.
    { rewrite Hgoes_on. unfold mbind at 1, M_bind.
      unfold Batch.untrack_if_pushed. unfold mbind at 1, M_bind. by rewrite Hquery. }
    split; [done|].
    unfold Batch.get_files_last_commits. unfold mbind at 1, M_bind.
    by rewrite for_each_one, Hraise.
Qed.

(** C2. A claim of one file or more does not return, whatever the spread
    of the last commits: it ends with the error of the resolution of the
    first file, before the spread is looked at, and no permission has
    changed.  For a first file outside every repository, whose spread would
    have no bit set, the error is a [TypeError]. *)
Theorem claim_files_raises filename filenames prune w :
  (∃ e w', Batch.get_files_last_commits E [filename] prune w = (Raise e, w')
     ∧ Batch.claim_files E (filename :: filenames) prune w = (Raise e, w')
     ∧ files w' = files w)
  ∧ (new_Repository E filename w = Raise InvalidGitRepositoryError
     ∨ new_Repository E filename w = Raise RepositoryNotSetup →
     Batch.claim_files E (filename :: filenames) prune w = (Raise TypeError, w)).
Proof.
  assert (∀ e w', Batch.get_files_last_commits E [filename] prune w = (Raise e, w') →
            Batch.claim_files E (filename :: filenames) prune w = (Raise e, w')) as Hfirst.
  { intros e w' He. unfold Batch.claim_files. simpl.
    unfold mbind at 1, M_bind. unfold mbind at 1, M_bind. by rewrite He. }
  split.
  - pose proof (get_files_last_commits_keeps_files E [filename] prune w) as Hfiles.
    destruct (get_files_last_commits_nonempty E filename [] prune w) as (e & w' & He).
    exists e, w'. rewrite He in Hfiles. split; [done|]. split; [by apply Hfirst|done].
  - intros Hunmanaged. apply Hfirst.
    unfold Batch.get_files_last_commits. unfold mbind at 1, M_bind.
    assert (Batch.file_last_commit E prune filename w = (Ok (Dict ∅), w)) as Hloop.
    { unfold Batch.file_last_commit, mbind, M_bind.
      by rewrite (get_repository_safe_unmanaged E _ _ Hunmanaged). }
    rewrite for_each_one, Hloop. unfold mbind at 1, M_bind.
    change [Dict ∅] with (Dict <$> [(∅ : record)]). rewrite get_commits_dicts_dicts.
    unfold mbind at 1, M_bind. by rewrite get_commits_branches_local.
Qed.

End ResolutionFacts.

(** ** The theorems at concrete inputs *)

Lemma commits_cached_or_fetched_witness :
  let fetched := [Examples.model_fbx] in
  (JsonbinStore.fresh_cache Examples.game Examples.noon
   ∧ JsonbinStore.commits Examples.expandvars Examples.game Examples.noon
     = (Ok Examples.tracked, Examples.noon))
  ∧ (¬ JsonbinStore.fresh_cache Examples.game
         (Examples.answering (mkResponse 200 (Some fetched) "{}"))
     ∧ (JsonbinStore.commits Examples.expandvars Examples.game
          (Examples.answering (mkResponse 200 (Some fetched) "{}"))).1 = Ok fetched)
  ∧ (JsonbinStore.commits Examples.expandvars Examples.game
       (Examples.answering (mkResponse 503 None "Service Unavailable"))).1
    = Raise StoreNotReachable.
Proof.
  intros fetched.
  assert (JsonbinStore.fresh_cache Examples.game Examples.noon) as Hfresh
    by (vm_compute; reflexivity).
  assert (∀ r, ¬ JsonbinStore.fresh_cache Examples.game (Examples.answering r)) as Hstale
    by (intros r; vm_compute; discriminate).
  split; [|split].
  - split; [exact Hfresh|].
    exact (proj1 (commits_cached_or_fetched Examples.expandvars Examples.game Examples.noon)
             Hfresh).
  - split; [apply Hstale|].
    pose proof (proj2 (commits_cached_or_fetched Examples.expandvars Examples.game
                         (Examples.answering (mkResponse 200 (Some fetched) "{}")))
                  (Hstale _) _ [] eq_refl) as H.
    destruct (JsonbinStore.commits _ _ _) as [result w'].
    destruct H as (_ & H & _). by destruct (H eq_refl fetched eq_refl) as [-> _].
  - pose proof (proj2 (commits_cached_or_fetched Examples.expandvars Examples.game
                         (Examples.answering (mkResponse 503 None "Service Unavailable")))
                  (Hstale _) _ [] eq_refl) as H.
    destruct (JsonbinStore.commits _ _ _) as [result w'].
    destruct H as (_ & _ & H). by destruct H as [-> _].
Defined.

Lemma set_commits_then_commits_witness :
  let w := Examples.answering (mkResponse 200 None "{}") in
  let w1 := (JsonbinStore.set_commits Examples.expandvars Examples.game
               [Examples.model_fbx] w).2 in
  net w = [mkResponse 200 None "{}"]
  ∧ JsonbinStore.commits Examples.expandvars Examples.game (tick 59 w1)
    = (Ok [Examples.model_fbx], tick 59 w1)
  ∧ length (sent (JsonbinStore.commits Examples.expandvars Examples.game (tick 60 w1)).2)
    = 2%nat.
Proof.
  intros w w1. split; [reflexivity|].
  pose proof (set_commits_then_commits Examples.expandvars Examples.game
                [Examples.model_fbx] w _ [] eq_refl) as H.
  subst w1. destruct (JsonbinStore.set_commits _ _ _ w) as [written w1] eqn:Hwrite.
  destruct H as [H _]. destruct (H eq_refl) as (_ & Hhit & Hmiss). split.
  - apply Hhit. vm_compute. by split.
  - simpl. rewrite Hmiss; [|vm_compute; discriminate].
    rewrite length_app. simpl.
    replace w1 with (JsonbinStore.set_commits Examples.expandvars Examples.game
                       [Examples.model_fbx] w).2 by (by rewrite Hwrite).
    reflexivity.
Defined.

Lemma claim_file_when_mine_witness :
  new_Repository Examples.outside "/work/studio/art/model.fbx" Examples.noon
  = Ok Examples.studio
  ∧ ∃ w', Batch.claim_file Examples.outside "/work/studio/art/model.fbx"
            Examples.model_fbx Examples.noon = (Ok ∅, w')
          ∧ files w' !! "/work/studio/art/model.fbx" = Some false.
Proof.
  split; [reflexivity|].
  destruct (claim_file_when_mine Examples.outside "/work/studio/art/model.fbx"
              Examples.model_fbx Examples.noon Examples.studio eq_refl)
    as (missing_commit & w' & Hclaim & Hnone & Hwritable & _).
  assert (missing_commit = ∅) as -> by (apply Hnone; left; reflexivity).
  exists w'. split; [exact Hclaim|].
  apply Hwritable; [reflexivity| |reflexivity]. vm_compute. eauto.
Defined.

Lemma claim_file_permissions_witness :
  files Examples.noon !! "/work/game/art/tree.fbx" = None
  ∧ files (Batch.claim_file Examples.outside "/work/game/art/tree.fbx" ∅ Examples.noon).2
    = files Examples.noon.
Proof.
  split; [reflexivity|].
  exact (proj1 (proj2 (claim_file_permissions Examples.outside "/work/game/art/tree.fbx" ∅
                         Examples.noon)) eq_refl).
Defined.

Lemma tracked_commit_selection_witness :
  let candidates :=
    Batch.relevant_tracked_commits Examples.outside Examples.game "art/model.fbx"
                                   Examples.tracked in
  new_Repository Examples.outside "/work/game/art/model.fbx" Examples.noon = Ok Examples.game
  ∧ JsonbinStore.commits (expandvars Examples.outside) Examples.game Examples.noon
    = (Ok Examples.tracked, Examples.noon)
  ∧ candidates ≠ [] ∧ forallb has_date candidates = true
  ∧ ∃ last_commit,
      Batch.last_tracked_commit candidates = Ok last_commit
      ∧ last_commit ∈ candidates
      ∧ (∀ c, c ∈ candidates → date_leb c last_commit = true)
      ∧ ∃ e, Batch.get_commits_branches Examples.outside [last_commit] true Examples.noon
             = (Raise e, Examples.noon)
          ∧ Batch.get_files_last_commits Examples.outside ["/work/game/art/model.fbx"] true
              Examples.noon = (Raise e, Examples.noon).
Proof.
  assert (JsonbinStore.commits (expandvars Examples.outside) Examples.game Examples.noon
          = (Ok Examples.tracked, Examples.noon)) as Hread by (vm_compute; reflexivity).
  assert (Batch.relevant_tracked_commits Examples.outside Examples.game "art/model.fbx"
            Examples.tracked ≠ []) as Hsome by (vm_compute; discriminate).
  assert (forallb has_date
            (Batch.relevant_tracked_commits Examples.outside Examples.game "art/model.fbx"
               Examples.tracked) = true) as Hdated by (vm_compute; reflexivity).
  split; [reflexivity|]. split; [exact Hread|]. split; [exact Hsome|]. split; [exact Hdated|].
  destruct (proj2 (proj2 (tracked_commit_selection Examples.outside Examples.game
                            "/work/game/art/model.fbx" true Examples.tracked
                            Examples.noon Examples.noon eq_refl Hread)) Hsome Hdated)
    as (last_commit & Hlast & Hin & Hgreatest & _ & e & Hquery & _ & Hcall).
  exists last_commit. split; [exact Hlast|]. split; [exact Hin|]. split; [exact Hgreatest|].
  exists e. by split.
Defined.

Lemma claim_files_raises_witness :
  new_Repository Examples.outside "/tmp/notes.txt" Examples.noon
  = Raise InvalidGitRepositoryError
  ∧ Batch.claim_files Examples.outside ["/tmp/notes.txt"; "/work/game/art/model.fbx"] true
      Examples.noon = (Raise TypeError, Examples.noon).
Proof.
  split; [reflexivity|].
  exact (proj2 (claim_files_raises Examples.outside "/tmp/notes.txt"
                  ["/work/game/art/model.fbx"] true Examples.noon) (or_introl eq_refl)).
Defined.

Lemma pushed_commit_raises_witness :
  is_Some (Examples.model_fbx !! "sha")
  ∧ ∃ e, Batch.get_files_last_commits Examples.outside ["/work/studio/art/model.fbx"] true
           Examples.noon = (Raise e, Examples.noon).
Proof.
  assert (is_Some (Examples.model_fbx !! "sha")) as Hsha by (vm_compute; eauto).
  split; [exact Hsha|].
  destruct (pushed_commit_raises Examples.outside Examples.studio
              "/work/studio/art/model.fbx" true Examples.noon Examples.noon
              Examples.tracked Examples.model_fbx)
    as (e & _ & He); [reflexivity|vm_compute; reflexivity|vm_compute; discriminate
                     |vm_compute; reflexivity|exact Hsha|].
  by exists e.
Defined.

Lemma unmanaged_file_raises_witness :
  new_Repository Examples.outside "/tmp/notes.txt" Examples.noon
  = Raise InvalidGitRepositoryError
  ∧ Batch.get_files_last_commits Examples.outside ["/tmp/notes.txt"] true Examples.noon
    = (Raise TypeError, Examples.noon).
Proof.
  split; [reflexivity|].
  exact (proj1 (proj2 (unmanaged_file_raises Examples.outside "/tmp/notes.txt" true
                         Examples.noon (or_introl eq_refl)))).
Defined.

Lemma history_commit_raises_witness :
  Batch.history_last_commit Examples.outside Examples.game "art/tree.fbx" true Examples.noon
  = (Ok (Raw Examples.root_commit), Examples.noon)
  ∧ ∃ e, Batch.get_files_last_commits Examples.outside ["/work/game/art/tree.fbx"] true
           Examples.noon = (Raise e, Examples.noon).
Proof.
  assert (Batch.history_last_commit Examples.outside Examples.game "art/tree.fbx" true
            Examples.noon = (Ok (Raw Examples.root_commit), Examples.noon)) as Hhistory
    by (vm_compute; reflexivity).
  split; [exact Hhistory|].
  apply (history_commit_raises Examples.outside Examples.game "/work/game/art/tree.fbx" true
           Examples.noon Examples.noon Examples.noon Examples.tracked Examples.root_commit);
    [reflexivity|vm_compute; reflexivity|vm_compute; reflexivity|exact Hhistory].
Defined.

Lemma get_commit_changes_raises_witness :
  Raw Examples.root_commit ∈ [Dict Examples.model_fbx; Raw Examples.root_commit]
  ∧ ∃ e, Batch.get_commit_changes Examples.outside
           [Dict Examples.model_fbx; Raw Examples.root_commit] Examples.noon
         = (Raise e, Examples.noon).
Proof.
  assert (Raw Examples.root_commit ∈ [Dict Examples.model_fbx; Raw Examples.root_commit])
    as Hraw by (apply elem_of_cons; right; apply elem_of_cons; by left).
  split; [exact Hraw|].
  apply (proj2 (get_commit_changes_raises Examples.outside _ Examples.noon)).
  by exists Examples.root_commit.
Defined.

(** The same calls, evaluated. *)
Example get_commits_branches_example :
  Batch.get_commits_branches Examples.outside [Examples.model_fbx] true Examples.noon
  = (Raise (CommandFailed "Command failed with error: unknown option: --remote"),
     Examples.noon)
  ∧ Batch.get_commits_branches Examples.outside [∅] false Examples.noon
    = (Raise TypeError, Examples.noon).
Proof. split; vm_compute; reflexivity. Qed.

Example get_commit_changes_example :
  Batch.get_commit_changes Examples.outside [Raw Examples.root_commit] Examples.noon
  = (Raise AttributeError, Examples.noon)
  ∧ Batch.get_files_last_commits Examples.outside ["/work/game/art/tree.fbx"] true
      Examples.noon
    = (Raise AttributeError, Examples.noon)
  ∧ Batch.get_files_last_commits Examples.outside ["/work/studio/art/model.fbx"] true
      Examples.noon
    = (Raise (CommandFailed "Command failed with error: unknown option: --remote"),
       Examples.noon).
Proof. repeat split; vm_compute; reflexivity. Qed.

(** * Further properties *)

(** ** The store *)

Section MoreStoreFacts.

Variable expandvars : string → string.

Lemma commits_same_elsewhere repository w :
  same_elsewhere repository w (JsonbinStore.commits expandvars repository w).2.
Proof.
  remember (JsonbinStore.commits expandvars repository w) as out eqn:Hout.
  revert Hout. unfold JsonbinStore.commits.
  unfold mbind at 1, M_bind, JsonbinStore.modified_within.
  destruct (match local_json w !! _ with Some _ => _ | None => _ end).
  - unfold JsonbinStore._read_local_json. intros ->. by repeat split.
  - unfold mbind at 1, M_bind, JsonbinStore.send.
    destruct (net w) as [|r rest]; [intros ->; by repeat split|].
    destruct (status_code r =? 200); [|intros ->; by repeat split].
    destruct (json_record r) as [fetched|]; simpl; intros ->; [|by repeat split].
    repeat split. intros path Hpath. simpl. by rewrite lookup_insert_ne.
Qed.

Lemma set_commits_same_elsewhere repository commits w :
  same_elsewhere repository w (JsonbinStore.set_commits expandvars repository commits w).2.
Proof.
  remember (JsonbinStore.set_commits expandvars repository commits w) as out eqn:Hout.
  revert Hout. unfold JsonbinStore.set_commits.
  unfold mbind at 1, M_bind, JsonbinStore.send.
  destruct (net w) as [|r rest]; [intros ->; by repeat split|].
  destruct (status_code r =? 200); simpl; intros ->; [|by repeat split].
  repeat split. intros path Hpath. simpl. by rewrite lookup_insert_ne.
Qed.

(** X1. A read that had to ask the transport and got the ledger makes the
    next read, less than the pull threshold later, a matter of the cache:
    the same ledger, and nothing sent. *)
Theorem commits_then_commits repository w r rest fetched dt :
  ¬ JsonbinStore.fresh_cache repository w →
  net w = r :: rest → status_code r = 200 → json_record r = Some fetched →
  0 ≤ dt < pull_threshold repository →
  let w1 := (JsonbinStore.commits expandvars repository w).2 in
  JsonbinStore.commits expandvars repository (tick dt w1) = (Ok fetched, tick dt w1).
Proof.
  intros Hstale Hnet Hstatus Hrecord Hdt w1.
  pose proof (proj2 (commits_cached_or_fetched expandvars repository w) Hstale r rest Hnet)
    as H.
  destruct (commits_same_elsewhere repository w) as (Hclock & _).
  fold w1 in Hclock. subst w1.
  destruct (JsonbinStore.commits expandvars repository w) as [result w1].
  simpl in *. destruct H as (_ & H & _). destruct (H Hstatus fetched Hrecord) as [_ Hcache].
  rewrite (proj1 (commits_cached_or_fetched expandvars repository (tick dt w1))).
  - simpl. by rewrite Hcache.
  - apply fresh_cache_iff. exists (clock w), fetched. simpl. split; [done|lia].
Qed.

(** X2. With a pull threshold of zero or less the cache is never used:
    every read sends a [GET], whatever the cache file holds (its
    modification time not being in the future). *)
Theorem commits_without_threshold repository w :
  pull_threshold repository ≤ 0 →
  (∀ mtime cached,
     local_json w !! JsonbinStore._local_json_path repository = Some (mtime, cached) →
     mtime ≤ clock w) →
  sent (JsonbinStore.commits expandvars repository w).2
  = sent w ++ [GET (JsonbinStore._url repository)
                   (expandvars <$> JsonbinStore._headers repository)].
Proof.
  intros Hthreshold Hpast. unfold JsonbinStore.commits.
  unfold mbind at 1, M_bind, JsonbinStore.modified_within.
  assert (match local_json w !! JsonbinStore._local_json_path repository with
          | Some (mtime, _) => clock w - mtime <? pull_threshold repository
          | None => false
          end = false) as ->.
  { destruct (local_json w !! _) as [[mtime cached]|] eqn:Hcache; [|done].
    specialize (Hpast mtime cached eq_refl). apply Z.ltb_ge. lia. }
  unfold mbind at 1, M_bind, JsonbinStore.send.
  destruct (net w) as [|r rest]; [done|].
  destruct (status_code r =? 200); [|done]. by destruct (json_record r).
Qed.

(** X3. Reading and writing the ledger touch one cache file, the one of
    the repository: the clock, the working files and their permissions,
    the record of fetches and every other cache file stay as they are. *)
Theorem store_touches_its_cache_only repository commits w path :
  path ≠ JsonbinStore._local_json_path repository →
  let read := (JsonbinStore.commits expandvars repository w).2 in
  let written := (JsonbinStore.set_commits expandvars repository commits w).2 in
  (local_json read !! path = local_json w !! path
   ∧ files read = files w ∧ fetches read = fetches w ∧ clock read = clock w)
  ∧ (local_json written !! path = local_json w !! path
     ∧ files written = files w ∧ fetches written = fetches w ∧ clock written = clock w).
Proof.
  intros Hpath read written.
  destruct (commits_same_elsewhere repository w) as (? & ? & ? & Hread).
  destruct (set_commits_same_elsewhere repository commits w) as (? & ? & ? & Hwritten).
  split; (split; [by auto|by repeat split]).
Qed.

(** X4. When the transport gives no answer at all, a write, and a read
    that cannot be served from the cache, end with the error of the request
    itself, not with [StoreNotReachable]; the request was made, and the
    cache keeps what it had. *)
Theorem commits_without_answer repository commits w :
  net w = [] →
  let '(written, w1) := JsonbinStore.set_commits expandvars repository commits w in
  (written = Raise ConnectionError ∧ local_json w1 = local_json w
   ∧ length (sent w1) = S (length (sent w)))
  ∧ (¬ JsonbinStore.fresh_cache repository w →
     let '(result, w2) := JsonbinStore.commits expandvars repository w in
     result = Raise ConnectionError ∧ local_json w2 = local_json w
     ∧ length (sent w2) = S (length (sent w))).
Proof.
  intros Hnet. unfold JsonbinStore.set_commits, JsonbinStore.commits.
  unfold mbind at 1, M_bind, JsonbinStore.send. rewrite Hnet.
  split; [repeat split; simpl; rewrite length_app; simpl; lia|]. intros Hstale.
  destruct (modified_within_total (JsonbinStore._local_json_path repository)
              (pull_threshold repository) w) as [[|] Hb]; [contradiction|].
  unfold mbind at 1, M_bind. rewrite Hb.
  unfold mbind, M_bind, JsonbinStore.send. rewrite Hnet.
  repeat split; simpl; rewrite length_app; simpl; lia.
Qed.

(** X5. A write is one [PUT] of the whole ledger, whatever the cache: its
    headers are the configured ones, expanded, but for [Content-Type],
    which is [application/json] even where the configuration says
    otherwise. *)
Theorem set_commits_request repository commits w :
  ∃ headers,
    sent (JsonbinStore.set_commits expandvars repository commits w).2
    = sent w ++ [PUT (JsonbinStore._url repository) headers commits]
    ∧ headers !! "Content-Type" = Some "application/json"
    ∧ ∀ key, key ≠ "Content-Type" →
        headers !! key = expandvars <$> JsonbinStore._headers repository !! key.
Proof.
  exists (<["Content-Type" := "application/json"]>
            (expandvars <$> JsonbinStore._headers repository)).
  split; [|split].
  - unfold JsonbinStore.set_commits. unfold mbind at 1, M_bind, JsonbinStore.send.
    destruct (net w) as [|r rest]; [done|]. by destruct (status_code r =? 200).
  - apply lookup_insert_eq.
  - intros key Hkey. rewrite lookup_insert_ne; [|done]. apply lookup_fmap.
Qed.

End MoreStoreFacts.

(** ** The selection among tracked commits *)

Lemma less_than_dated_leb a b :
  has_date a = true → has_date b = true →
  less_than (a !! "date") (b !! "date") = Ok (negb (date_leb b a)).
Proof.
  unfold has_date, date_leb, less_than.
  destruct (a !! "date") as [[x| |]|], (b !! "date") as [[y| |]|]; try discriminate.
  intros _ _. f_equal. unfold String.ltb, String.leb.
  rewrite (String.compare_antisym x y). by destruct (String.compare y x).
Qed.

Lemma date_leb_total a b :
  has_date a = true → has_date b = true → date_leb a b = false → date_leb b a = true.
Proof.
  unfold has_date, date_leb.
  destruct (a !! "date") as [[x| |]|], (b !! "date") as [[y| |]|]; try discriminate.
  intros _ _. destruct (String.leb_total x y) as [->| ->]; done.
Qed.

Lemma date_leb_dated a b : date_leb a b = true → has_date a = true ∧ has_date b = true.
Proof.
  unfold has_date, date_leb.
  by destruct (a !! "date") as [[x| |]|], (b !! "date") as [[y| |]|].
Qed.

Lemma insert_by_date_last x l l' m :
  has_date x = true → forallb has_date l = true → Sorted by_date l → last l = Some m →
  insert_by (λ commit, commit !! "date") x l = Ok l' →
  last l' = Some (if date_leb x m then m else x).
Proof.
  intros Hx. revert l'. induction l as [|y l IH]; intros l' Hl Hsorted Hlast; [done|].
  simpl in Hl. apply andb_true_iff in Hl as [Hy Hl]. simpl.
  rewrite (less_than_dated_leb y x Hy Hx). simpl.
  destruct (date_leb x y) eqn:Hxy; simpl.
  - intros [= <-]. change (last (x :: y :: l)) with (last (y :: l)). rewrite Hlast.
    assert (date_leb x m = true) as ->; [|done].
    apply Sorted_StronglySorted in Hsorted; [|intros a b c; apply date_leb_trans].
    apply StronglySorted_inv in Hsorted as [_ Hall].
    destruct l as [|z l]; [by injection Hlast as <-|].
    apply (date_leb_trans x y m Hxy). rewrite Forall_forall in Hall. apply Hall.
    change (last (y :: z :: l)) with (last (z :: l)) in Hlast.
    by apply last_Some_elem_of.
  - apply Sorted_inv in Hsorted as [Hsorted _].
    destruct l as [|z l].
    + injection Hlast as <-. simpl. intros [= <-]. simpl. by rewrite Hxy.
    + change (last (y :: z :: l)) with (last (z :: l)) in Hlast.
      destruct (insert_by _ x (z :: l)) as [l''|e] eqn:Hinsert; [|done].
      simpl. intros [= <-]. specialize (IH l'' Hl Hsorted Hlast eq_refl).
      destruct l'' as [|? ?]; [done|]. exact IH.
Qed.

Lemma insert_by_perm key x l l' : insert_by key x l = Ok l' → l' ≡ₚ x :: l.
Proof.
  revert l'. induction l as [|y l IH]; intros l'; simpl; [by intros [= <-]|].
  destruct (less_than (key y) (key x)) as [[|]|e]; simpl; [|by intros [= <-]|done].
  destruct (insert_by key x l) as [l''|e]; simpl; [|done].
  intros [= <-]. rewrite (IH l'' eq_refl). apply perm_swap.
Qed.

Lemma sort_by_perm key l sorted : sort_by key l = Ok sorted → sorted ≡ₚ l.
Proof.
  revert sorted. induction l as [|x l IH]; intros sorted; simpl; [by intros [= <-]|].
  destruct (sort_by key l) as [sorted'|e]; simpl; [|done].
  intros Hinsert. apply insert_by_perm in Hinsert. by rewrite Hinsert, (IH sorted' eq_refl).
Qed.

Lemma insert_by_TypeError key x l e : insert_by key x l = Raise e → e = TypeError.
Proof.
  induction l as [|y l IH]; simpl; [done|].
  destruct (less_than (key y) (key x)) as [[|]|e'] eqn:Hless; simpl.
  - destruct (insert_by key x l); simpl; [done|]. intros [= <-]. by apply IH.
  - done.
  - intros [= <-]. unfold less_than in Hless.
    destruct (key y) as [[?|?|?]|], (key x) as [[?|?|?]|]; congruence.
Qed.

Lemma sort_by_TypeError key l e : sort_by key l = Raise e → e = TypeError.
Proof.
  revert e. induction l as [|x l IH]; intros e; simpl; [done|].
  destruct (sort_by key l) as [sorted|e']; simpl.
  - apply insert_by_TypeError.
  - intros [= <-]. by apply IH.
Qed.

Lemma less_than_undated a b : a = None ∨ b = None → less_than a b = Raise TypeError.
Proof. intros [-> | ->]; [done|]. by destruct a as [[?|?|?]|]. Qed.

(** X6. Among tracked commits with string dates the selection is the last
    of those with the greatest date: every commit before it in the ledger
    is no later, every commit after it is strictly earlier.  Of two claims
    with the same date the later entry wins. *)
Theorem last_tracked_commit_ties (candidates : ledger) :
  candidates ≠ [] → forallb has_date candidates = true →
  ∃ last_commit before after,
    Batch.last_tracked_commit candidates = Ok last_commit
    ∧ candidates = before ++ last_commit :: after
    ∧ Forall (λ c, date_leb c last_commit = true) before
    ∧ Forall (λ c, date_leb last_commit c = false) after.
Proof.
  unfold Batch.last_tracked_commit.
  induction candidates as [|x l IH]; intros Hsome Hdated; [done|].
  simpl in Hdated. apply andb_true_iff in Hdated as [Hx Hl].
  destruct (decide (l = [])) as [->|Hl'].
  { exists x, [], []. simpl. by repeat split. }
  destruct (IH Hl' Hl) as (m & before & after & Hlast & -> & Hbefore & Hafter).
  destruct (sort_by_date _ Hl) as (sorted & Hsort & Hperm & Hsorted).
  simpl. rewrite Hsort in *. simpl in *.
  destruct (last sorted) as [m'|] eqn:Hm; [|done]. injection Hlast as ->.
  assert (forallb has_date sorted = true) as Hdated.
  { apply forallb_forall. intros c Hc. rewrite forallb_forall in Hl. apply Hl.
    apply list_elem_of_In. rewrite <- Hperm. by apply list_elem_of_In. }
  destruct (insert_by_date x sorted Hx Hdated Hsorted) as (l' & Hinsert & _ & _).
  rewrite Hinsert. simpl.
  rewrite (insert_by_date_last x sorted l' m Hx Hdated Hsorted Hm Hinsert).
  assert (has_date m = true) as Hdm.
  { rewrite forallb_forall in Hl. apply Hl. apply list_elem_of_In.
    apply elem_of_app. right. by left. }
  destruct (date_leb x m) eqn:Hxm.
  - exists m, (x :: before), after. repeat split; [by constructor|done].
  - exists x, [], (before ++ m :: after). repeat split; [done|].
    apply Forall_forall. intros c Hc.
    destruct (date_leb x c) eqn:Hxc; [exfalso|done].
    assert (date_leb c m = true) as Hcm.
    { apply elem_of_app in Hc as [Hc|Hc].
      - rewrite Forall_forall in Hbefore. by apply Hbefore.
      - apply elem_of_cons in Hc as [->|Hc]; [by apply date_leb_refl|].
        rewrite Forall_forall in Hafter. specialize (Hafter c Hc).
        apply date_leb_total; [done| |done]. by apply date_leb_dated in Hxc as [_ ?]. }
    by rewrite (date_leb_trans x c m Hxc Hcm) in Hxm.
Qed.

(** X7. One candidate is selected as it is, with or without a date; of two
    candidates or more, one without [date] makes the selection a
    [TypeError]. *)
Theorem last_tracked_commit_undated (candidates : ledger) c :
  Batch.last_tracked_commit [c] = Ok c
  ∧ ((2 ≤ length candidates)%nat → c ∈ candidates → c !! "date" = None →
     Batch.last_tracked_commit candidates = Raise TypeError).
Proof.
  split; [done|]. intros Hlen Hin Hnone. unfold Batch.last_tracked_commit.
  assert (sort_by (λ commit, commit !! "date") candidates = Raise TypeError) as ->; [|done].
  revert Hlen Hin. induction candidates as [|x l IH]; intros Hlen Hin; [by simpl in Hlen; lia|].
  simpl. destruct (sort_by _ l) as [sorted|e] eqn:Hsort; simpl.
  - destruct sorted as [|y sorted].
    { apply sort_by_perm in Hsort. apply Permutation_nil_l in Hsort. subst l.
      simpl in Hlen. lia. }
    simpl. apply elem_of_cons in Hin as [->|Hin].
    + by rewrite less_than_undated; [|right].
    + destruct l as [|z [|z' l]]; [by apply elem_of_nil in Hin| |].
      * apply list_elem_of_singleton in Hin as ->.
        apply sort_by_perm in Hsort. apply Permutation_length in Hsort as Hlen'.
        destruct sorted; [|done]. apply Permutation_singleton_l in Hsort as [= ->].
        by rewrite less_than_undated; [|left].
      * discriminate IH; [simpl; lia|done].
  - f_equal. by apply sort_by_TypeError in Hsort.
Qed.

(** ** Commands and repositories *)

Lemma traverse_strings args argv :
  traverse (λ a, match a with VStr s => Ok s | _ => Raise TypeError end) args = Ok argv
  ↔ args = VStr <$> argv.
Proof.
  revert argv. induction args as [|a args IH]; intros argv; simpl.
  - split; [by intros [= <-]|]. by destruct argv.
  - destruct a as [s| |]; simpl.
    + destruct (traverse _ args) as [argv'|e]; simpl.
      * split.
        -- intros [= <-]. simpl. f_equal. by apply IH.
        -- destruct argv as [|s' argv]; [done|]. intros [= -> Hargs].
           apply IH in Hargs. by injection Hargs as ->.
      * split; [done|]. destruct argv as [|s' argv]; [done|]. intros [= -> Hargs].
        by apply IH in Hargs.
    + split; [done|]. by destruct argv.
    + split; [done|]. by destruct argv.
Qed.

Section CommandFacts.

Variable E : Outside.

(** X9. [get_repository_safe] gives [None] exactly when the construction
    of the repository fails for want of a git repository or of a gitalong
    setup; it gives the repository when there is one, and lets every other
    error through as it is.  The [get_repository] of the command line
    differs in one case: without a git repository it raises. *)
Theorem get_repository_safe_errors filename w :
  match new_Repository E filename w with
  | Ok repository =>
      Batch.get_repository_safe E filename w = (Ok (Some repository), w)
      ∧ Cli.get_repository E filename w = (Ok (Some repository), w)
  | Raise RepositoryNotSetup =>
      Batch.get_repository_safe E filename w = (Ok None, w)
      ∧ Cli.get_repository E filename w = (Ok None, w)
  | Raise InvalidGitRepositoryError =>
      Batch.get_repository_safe E filename w = (Ok None, w)
      ∧ Cli.get_repository E filename w = (Raise InvalidGitRepositoryError, w)
  | Raise e =>
      Batch.get_repository_safe E filename w = (Raise e, w)
      ∧ Cli.get_repository E filename w = (Raise e, w)
  end.
Proof.
  unfold Batch.get_repository_safe, Cli.get_repository, try_except, mbind, M_bind.
  destruct (new_Repository E filename w) as [repository|e]; [done|]. by destruct e.
Qed.

End CommandFacts.

(** ** The resolution as a whole *)

Section WholeFacts.

Variable E : Outside.

(** X10. [get_commits_dicts] returns exactly on lists of dictionaries,
    which it gives back as they are and in their order; a raw commit
    anywhere in the list makes it fail. *)
Theorem get_commits_dicts_returns commits (dicts : ledger) w w' :
  Batch.get_commits_dicts E commits w = (Ok dicts, w')
  ↔ commits = Dict <$> dicts ∧ w' = w.
Proof.
  split.
  - intros Hreturn. destruct (dicts_or_raw commits) as [[dicts' ->]|Hraw].
    + rewrite get_commits_dicts_dicts in Hreturn. by injection Hreturn as -> ->.
    + destruct (get_commits_dicts_raw E commits w Hraw) as [e He]. congruence.
  - intros [-> ->]. apply get_commits_dicts_dicts.
Qed.


Lemma claim_files_first filename filenames prune w :
  ∃ e w', Batch.claim_files E (filename :: filenames) prune w = (Raise e, w')
    ∧ files w' = files w.
Proof.
  unfold Batch.claim_files. simpl. unfold mbind at 1, M_bind. unfold mbind at 1, M_bind.
  pose proof (get_files_last_commits_keeps_files E [filename] prune w) as Hfiles.
  destruct (get_files_last_commits_nonempty E filename [] prune w) as (e & w' & He).
  rewrite He in *. by exists e, w'.
Qed.

(** X12. [claim_files] returns for the empty list of file names only, and
    it never changes a permission: with one file or more it stops at the
    resolution of the first. *)
Theorem claim_files_returns filenames prune w :
  ((∃ missing_commits w',
      Batch.claim_files E filenames prune w = (Ok missing_commits, w'))
   ↔ filenames = [])
  ∧ files (Batch.claim_files E filenames prune w).2 = files w.
Proof.
  destruct filenames as [|filename filenames].
  - split; [|done]. split; [done|]. intros _. by exists [], w.
  - destruct (claim_files_first filename filenames prune w) as (e & w' & -> & Hfiles).
    split; [|done]. split; [|done]. by intros (? & ? & ?).
Qed.

(** X13. A file of a repository whose store cannot be reached (no fresh
    cache, an answer other than 200) is not resolved: the call raises
    [StoreNotReachable] at once, whatever files follow, and the cache
    stays as it was. *)
Theorem store_not_reachable_surfaces filename filenames prune w repository r rest :
  new_Repository E filename w = Ok repository →
  ¬ JsonbinStore.fresh_cache repository w →
  net w = r :: rest → status_code r ≠ 200 →
  ∃ w', Batch.get_files_last_commits E (filename :: filenames) prune w
        = (Raise StoreNotReachable, w')
    ∧ local_json w' = local_json w.
Proof.
  intros Hrepository Hstale Hnet Hstatus.
  pose proof (proj2 (commits_cached_or_fetched (expandvars E) repository w) Hstale r rest Hnet)
    as Hread.
  destruct (JsonbinStore.commits (expandvars E) repository w) as [result w'] eqn:Hcommits.
  destruct Hread as (_ & _ & Hread). destruct (Hread Hstatus) as [-> Hcache].
  exists w'. split; [|done].
  unfold Batch.get_files_last_commits. unfold mbind at 1, M_bind. simpl.
  unfold mbind at 1, M_bind. unfold Batch.file_last_commit. unfold mbind at 1, M_bind.
  rewrite (get_repository_safe_managed E _ _ _ Hrepository).
  unfold mbind at 1, M_bind. by rewrite Hcommits.
Qed.

End WholeFacts.

(** ** The history of a path *)

Lemma remove_char_absent c s :
  Forall (λ d, d ≠ c) (list_ascii_of_string s) → remove_char c s = s.
Proof.
  induction s as [|d s IH]; simpl; [done|]. intros Hall.
  apply Forall_cons in Hall as [Hd Hall].
  destruct (Ascii.eqb_spec d c) as [->|_]; [done|]. by rewrite IH.
Qed.

Lemma append_empty s : s +:+ EmptyString = s.
Proof.
  induction s as [|c s IH]; [done|].
  change (String c (s +:+ EmptyString) = String c s). by rewrite IH.
Qed.

Lemma remove_char_append c s t :
  remove_char c (s +:+ t) = remove_char c s +:+ remove_char c t.
Proof.
  induction s as [|d s IH]; simpl; [done|].
  destruct (Ascii.eqb d c); simpl; by rewrite IH.
Qed.

Lemma split_first_piece c s t :
  Forall (λ d, d ≠ c) (list_ascii_of_string s) →
  head (split c (s +:+ String c t)) = Some s ∧ split c s = [s].
Proof.
  induction s as [|d s IH]; simpl; intros Hall.
  - by rewrite Ascii.eqb_refl.
  - apply Forall_cons in Hall as [Hd Hall]. destruct (IH Hall) as [Hhead ->].
    destruct (Ascii.eqb_spec d c) as [->|_]; [done|].
    destruct (split c (s +:+ String c t)) as [|piece pieces]; [done|].
    simpl in *. by injection Hhead as ->.
Qed.

Section HistoryFacts.

Variable E : Outside.

Lemma history_last_commit_halves repository filename prune w :
  Batch.history_last_commit E repository filename prune w
  = (History.refresh E repository prune;; History.newest E repository filename) w.
Proof.
  unfold Batch.history_last_commit, History.refresh, History.newest.
  unfold mbind, M_bind. cbv beta iota.
  by destruct (pulled_within E repository (pull_threshold repository) w).
Qed.

Lemma newest_reads repository filename w :
  ∃ r, History.newest E repository filename w = (r, w).
Proof.
  unfold History.newest, mbind, M_bind.
  destruct (git_log E repository _ w) as [output|e]; [|by eexists].
  destruct (repo_commit E repository _ w) as [[commit|]|e]; by eexists.
Qed.

Lemma refresh_fetches repository prune w :
  ∃ fetched, fetched_for repository prune w (History.refresh E repository prune w).2 fetched
    ∧ (pulled_within E repository (pull_threshold repository) w = true → fetched = [])
    ∧ (origin_fetch E repository prune w ≠ Ok () → fetched = []).
Proof.
  assert (w = mkWorld (clock w) (local_json w) (net w) (sent w) (files w) (fetches w ++ []))
    as Hw by (rewrite app_nil_r; by destruct w).
  unfold History.refresh, fetched_for. unfold mbind at 1, M_bind. cbv beta iota.
  destruct (pulled_within E repository (pull_threshold repository) w).
  { exists []. simpl. split; [by split; [|left]|done]. }
  unfold try_except, mbind, M_bind, Batch.fetch.
  destruct (origin_fetch E repository prune w) as [[]|e] eqn:Horigin.
  - match goal with |- context [remote_fetch E repository prune ?w1] =>
      destruct (remote_fetch E repository prune w1) as [[]|e] end.
    + exists [(working_dir repository, prune); (working_dir repository, prune)]. simpl.
      split; [split; [by rewrite <- app_assoc|by right; right]|]. by split.
    + exists [(working_dir repository, prune)].
      split; [split; [by destruct e|by right; left]|]. by split.
  - exists []. split; [split; [by destruct e|by left]|]. by split.
Qed.

(** X14. The look at the history of a path fetches only when the
    repository was not pulled within the threshold, at most twice and for
    this repository alone; a first fetch that fails is not followed by the
    second.  Nothing else outside changes. *)
Theorem history_last_commit_fetches_twice repository filename prune w :
  ∃ fetched,
    fetched_for repository prune w
      (Batch.history_last_commit E repository filename prune w).2 fetched
    ∧ (pulled_within E repository (pull_threshold repository) w = true → fetched = [])
    ∧ (origin_fetch E repository prune w ≠ Ok () → fetched = []).
Proof.
  rewrite history_last_commit_halves. unfold mbind, M_bind.
  destruct (refresh_fetches repository prune w) as (fetched & Hfetched & Hgate).
  exists fetched. split; [|done].
  destruct (History.refresh E repository prune w) as [[u|e] w1]; [|done].
  by destruct (newest_reads repository filename w1) as [r ->].
Qed.

(** X15. A fetch that fails with a git command error is passed over: the
    log is read and its first commit looked up as if no fetch had been
    due.  A fetch that fails with any other error ends the call with that
    error, before the log is read. *)
Theorem history_last_commit_fetch_errors repository filename prune w e :
  pulled_within E repository (pull_threshold repository) w = false →
  origin_fetch E repository prune w = Raise e →
  Batch.history_last_commit E repository filename prune w
  = match e with
    | GitCommandError => History.newest E repository filename w
    | _ => (Raise e, w)
    end.
Proof.
  intros Hpulled Hfetch. rewrite history_last_commit_halves.
  unfold History.refresh. unfold mbind at 1, M_bind. unfold mbind at 1, M_bind.
  cbv beta iota. rewrite Hpulled.
  unfold try_except, mbind, M_bind, Batch.fetch. rewrite Hfetch. by destruct e.
Qed.

(** X16. Of the log output the first line counts, without its quotation
    marks: when the repository was pulled within the threshold and the log
    prints a quoted hash first, the commit of that hash is the last commit
    of the path; when the log prints nothing, the commit of the empty
    revision is asked for. *)
Theorem history_last_commit_first_line repository filename prune w sha more :
  pulled_within E repository (pull_threshold repository) w = true →
  Forall (λ c, c ≠ "034"%char ∧ c ≠ "010"%char) (list_ascii_of_string sha) →
  let args := ["--all"; "--remotes"; Batch.pretty_format; "--"; filename] in
  let quoted := String "034" (sha +:+ String "034" EmptyString) in
  let found commit := match commit with
                      | Ok (Some commit) => (Ok (Raw commit), w)
                      | Ok None => (Ok (Dict ∅), w)
                      | Raise e => (Raise e, w)
                      end in
  (git_log E repository args w = Ok quoted
   ∨ git_log E repository args w = Ok (quoted +:+ String "010" more) →
   Batch.history_last_commit E repository filename prune w
   = found (repo_commit E repository sha w))
  ∧ (git_log E repository args w = Ok EmptyString →
     Batch.history_last_commit E repository filename prune w
     = found (repo_commit E repository EmptyString w)).
Proof.
  intros Hpulled Hsha args quoted found.
  assert (Batch.history_last_commit E repository filename prune w
          = History.newest E repository filename w) as ->.
  { rewrite history_last_commit_halves. unfold History.refresh.
    unfold mbind at 1, M_bind. unfold mbind at 1, M_bind. cbv beta iota.
    by rewrite Hpulled. }
  assert (Forall (λ c, c ≠ "034"%char) (list_ascii_of_string sha)) as Hquote
    by (eapply Forall_impl; [exact Hsha|]; by intros c [? _]).
  assert (Forall (λ c, c ≠ "010"%char) (list_ascii_of_string sha)) as Hline
    by (eapply Forall_impl; [exact Hsha|]; by intros c [_ ?]).
  unfold History.newest. fold args. split.
  - intros Hlog.
    assert (∃ output, git_log E repository args w = Ok output
              ∧ output ≠ EmptyString
              ∧ head (split "010" (remove_char "034" output)) = Some sha)
      as (output & Hlog' & Houtput & Hhead).
    { destruct Hlog as [Hlog|Hlog]; rewrite Hlog; eexists; (split; [done|]);
        (split; [done|]); subst quoted; simpl.
      - rewrite remove_char_append, (remove_char_absent _ _ Hquote). simpl.
        rewrite append_empty.
        by rewrite (proj2 (split_first_piece "010" sha EmptyString Hline)).
      - rewrite !remove_char_append, (remove_char_absent _ _ Hquote). simpl.
        rewrite append_empty.
        by rewrite (proj1 (split_first_piece "010" sha _ Hline)). }
    unfold mbind, M_bind. cbv beta iota. rewrite Hlog'.
    rewrite (bool_decide_eq_false_2 _ Houtput), Hhead. simpl.
    by destruct (repo_commit E repository sha w) as [[commit|]|e].
  - intros Hlog. unfold mbind, M_bind. cbv beta iota. rewrite Hlog. simpl.
    by destruct (repo_commit E repository EmptyString w) as [[commit|]|e].
Qed.

End HistoryFacts.

(** ** The branch names of a commit *)

Lemma assoc_set_elem_of key names d : (key, names) ∈ assoc_set key names d.
Proof.
  induction d as [|[k v] d IH]; simpl; [by left|].
  destruct (decide (k = key)) as [->|]; [by left|by right].
Qed.

Lemma assoc_set_other key names d k v :
  k ≠ key → (k, v) ∈ assoc_set key names d ↔ (k, v) ∈ d.
Proof.
  intros Hk. induction d as [|[k' v'] d IH]; simpl.
  - rewrite list_elem_of_singleton. split; [by intros [= ? _]|by intros ?%elem_of_nil].
  - destruct (decide (k' = key)) as [->|Hk'].
    + rewrite !elem_of_cons. split; (intros [[= ? _]|?]; [done|by right]).
    + rewrite !elem_of_cons. by rewrite IH.
Qed.

Lemma set_branches_spec key names (d d' : record) :
  set_branches key names d = Ok d' →
  (∀ k, k ≠ "branches" → d' !! k = d !! k)
  ∧ ∃ b, d' !! "branches" = Some (VDict b) ∧ (key, names) ∈ b
      ∧ ∀ k v, k ≠ key → (k, v) ∈ b → d !! "branches" = None ∨
          ∃ b0, d !! "branches" = Some (VDict b0) ∧ (k, v) ∈ b0.
Proof.
  unfold set_branches. destruct (d !! "branches") as [[?|?|b0]|] eqn:Hd; try done.
  - intros [= <-]. split; [intros k Hk; by rewrite lookup_insert_ne|].
    exists (assoc_set key names b0). rewrite lookup_insert_eq.
    split; [done|]. split; [apply assoc_set_elem_of|].
    intros k v Hk Hin. right. exists b0. split; [done|]. by apply assoc_set_other in Hin.
  - intros [= <-]. split; [intros k Hk; by rewrite lookup_insert_ne|].
    exists [(key, names)]. rewrite lookup_insert_eq.
    split; [done|]. split; [by left|]. intros k v Hk Hin. by left.
Qed.

(** X17. Merging the branch names into a commit writes the [branches] key
    only: every other key keeps its value.  Two empty lists leave the
    commit as it is (no [branches] key appears); a list that is not empty
    is found under [local], respectively [remote], afterwards; and a
    [branches] value that is no dictionary makes the merge a [TypeError]
    as soon as there is a name to store. *)
Theorem with_branches_keys (d : record) local_branches remote_branches :
  Batch.with_branches d [] [] = Ok d
  ∧ (∀ d', Batch.with_branches d local_branches remote_branches = Ok d' →
       (∀ k, k ≠ "branches" → d' !! k = d !! k)
       ∧ (local_branches ≠ [] ∨ remote_branches ≠ [] →
          ∃ b, d' !! "branches" = Some (VDict b)
            ∧ (local_branches ≠ [] → ("local", local_branches) ∈ b)
            ∧ (remote_branches ≠ [] → ("remote", remote_branches) ∈ b)))
  ∧ ((∃ v, d !! "branches" = Some v ∧ ∀ b, v ≠ VDict b) →
     local_branches ≠ [] ∨ remote_branches ≠ [] →
     Batch.with_branches d local_branches remote_branches = Raise TypeError).
Proof.
  split; [done|]. unfold Batch.with_branches. split.
  - intros d'. unfold mbind, result_bind.
    destruct (decide (local_branches = [])) as [->|Hlocal];
      [rewrite bool_decide_eq_true_2 by done|rewrite bool_decide_eq_false_2 by done];
      (destruct (decide (remote_branches = [])) as [->|Hremote];
       [rewrite (bool_decide_eq_true_2 _ eq_refl)|]).
    + intros [= <-]. split; [done|]. by intros [|].
    + rewrite bool_decide_eq_false_2 by done. intros Hset.
      destruct (set_branches_spec _ _ _ _ Hset) as (Hkeys & b & Hb & Hin & _).
      split; [done|]. intros _. exists b. by repeat split.
    + destruct (set_branches "local" local_branches d) as [d1|e] eqn:Hset; [|done].
      intros [= <-].
      destruct (set_branches_spec _ _ _ _ Hset) as (Hkeys & b & Hb & Hin & _).
      split; [done|]. intros _. exists b. by repeat split.
    + destruct (set_branches "local" local_branches d) as [d1|e] eqn:Hset1; [|done].
      rewrite bool_decide_eq_false_2 by done. intros Hset2.
      destruct (set_branches_spec _ _ _ _ Hset1) as (Hkeys1 & b1 & Hb1 & Hin1 & _).
      destruct (set_branches_spec _ _ _ _ Hset2) as (Hkeys2 & b2 & Hb2 & Hin2 & _).
      split; [intros k Hk; by rewrite Hkeys2, Hkeys1|]. intros _. exists b2.
      split; [done|]. split; [|done]. intros _.
      revert Hset2 Hb2. unfold set_branches. rewrite Hb1. intros [= <-].
      rewrite lookup_insert_eq. intros [= <-]. by apply assoc_set_other.
  - intros (v & Hv & Hdict) Hnames. unfold mbind, result_bind.
    assert (∀ key names, set_branches key names d = Raise TypeError) as Hraise.
    { intros key names. unfold set_branches. rewrite Hv.
      destruct v as [?|?|b]; [done|done|by destruct (Hdict b)]. }
    destruct (decide (local_branches = [])) as [->|Hlocal].
    + rewrite (bool_decide_eq_true_2 _ eq_refl).
      destruct Hnames as [|Hremote]; [done|].
      by rewrite bool_decide_eq_false_2, Hraise.
    + by rewrite bool_decide_eq_false_2, Hraise.
Qed.

(** ** The command line *)

Lemma land_pow2 a n :
  0 ≤ n → (Z.land a (2 ^ n) =? 0) = negb (Z.testbit a n).
Proof.
  intros Hn. destruct (Z.testbit a n) eqn:Hbit; simpl.
  - apply Z.eqb_neq. intros Hzero.
    apply (f_equal (λ z, Z.testbit z n)) in Hzero.
    rewrite Z.land_spec, Hbit, Z.pow2_bits_true, Z.bits_0 in Hzero; done.
  - apply Z.eqb_eq. apply Z.bits_inj'. intros m Hm.
    rewrite Z.land_spec, Z.bits_0, Z.pow2_bits_eqb by done.
    destruct (Z.eqb_spec n m) as [->|_]; [by rewrite Hbit|by rewrite andb_false_r].
Qed.

Lemma sign_bit spread n :
  0 ≤ n → Cli.sign spread (2 ^ n) = if Z.testbit spread n then "+" else "-".
Proof.
  intros Hn. unfold Cli.sign. rewrite land_pow2 by done. by destruct (Z.testbit spread n).
Qed.

(** X18. A status line begins with eight signs, one per bit of the spread
    from [MINE_UNCOMMITTED] to [THEIR_UNCOMMITTED], a plus for a bit that is
    set and a minus otherwise, followed by the file name as it was given.
    Without repository the signs are all minus. *)
Theorem get_status_signs repository filename commit status :
  Cli.get_status repository filename commit = Ok status →
  let spread := match repository with
                | Some repository => get_commit_spread repository commit
                | None => 0
                end in
  ∃ columns,
    status = String.concat EmptyString
               ((λ n, if Z.testbit spread n then "+" else "-") <$> [0; 1; 2; 3; 4; 5; 6; 7])
             +:+ " " +:+ filename +:+ " " +:+ columns.
Proof.
  intros Hstatus spread. unfold Cli.get_status in Hstatus. fold spread in Hstatus.
  change CommitSpread.MINE_UNCOMMITTED with (2 ^ 0) in Hstatus.
  change CommitSpread.MINE_ACTIVE_BRANCH with (2 ^ 1) in Hstatus.
  change CommitSpread.MINE_OTHER_BRANCH with (2 ^ 2) in Hstatus.
  change CommitSpread.REMOTE_MATCHING_BRANCH with (2 ^ 3) in Hstatus.
  change CommitSpread.REMOTE_OTHER_BRANCH with (2 ^ 4) in Hstatus.
  change CommitSpread.THEIR_OTHER_BRANCH with (2 ^ 5) in Hstatus.
  change CommitSpread.THEIR_MATCHING_BRANCH with (2 ^ 6) in Hstatus.
  change CommitSpread.THEIR_UNCOMMITTED with (2 ^ 7) in Hstatus.
  rewrite !sign_bit in Hstatus by lia.
  cbn -[Z.testbit String.append] in *.
  remember (Z.testbit spread 0) as b0. remember (Z.testbit spread 1) as b1.
  remember (Z.testbit spread 2) as b2. remember (Z.testbit spread 3) as b3.
  remember (Z.testbit spread 4) as b4. remember (Z.testbit spread 5) as b5.
  remember (Z.testbit spread 6) as b6. remember (Z.testbit spread 7) as b7.
  destruct (Cli.branches_column "local" commit) as [local_branches|?]; [|done].
  destruct (Cli.branches_column "remote" commit) as [remote_branches|?]; [|done].
  simpl in Hstatus. unfold Cli.join in Hstatus. simpl in Hstatus.
  destruct (default (VStr "-") (commit !! "sha")) as [sha| |]; simpl in Hstatus; try done.
  destruct (default (VStr "-") (commit !! "host")) as [host| |]; simpl in Hstatus; try done.
  destruct (if Cli.truthy_value _ then _ else _) as [author| |]; simpl in Hstatus; try done.
  injection Hstatus as <-. eexists.
  destruct b0, b1, b2, b3, b4, b5, b6, b7; reflexivity.
Qed.

Lemma branches_column_returns key commit :
  (∃ column, Cli.branches_column key commit = Ok column)
  ↔ commit !! "branches" = None ∨ ∃ b, commit !! "branches" = Some (VDict b).
Proof.
  unfold Cli.branches_column.
  destruct (commit !! "branches") as [[?|?|b]|]; simpl.
  - split; [by intros [? ?]|]. by intros [|[? ?]].
  - split; [by intros [? ?]|]. by intros [|[? ?]].
  - split; [|by eexists]. intros _. right. by eexists.
  - split; [|by eexists]. by left.
Qed.

Lemma join_returns sep items :
  (∃ joined, Cli.join sep items = Ok joined) ↔ Forall (λ item, ∃ s, item = VStr s) items.
Proof.
  unfold Cli.join. split.
  - intros [joined Hjoin].
    destruct (traverse _ items) as [strings|e] eqn:Hitems; [|done].
    apply traverse_strings in Hitems as ->. clear.
    induction strings; constructor; [by eexists|done].
  - intros Hitems.
    assert (∃ strings, items = VStr <$> strings) as [strings ->].
    { induction Hitems as [|item items [s ->] _ [strings ->]]; [by exists []|].
      by exists (s :: strings). }
    rewrite (proj2 (traverse_strings _ strings) eq_refl). by eexists.
Qed.

(** X19. A status line can be written exactly for the commits whose
    [branches], if present, is a dictionary, whose [sha] and [host], if
    present, are strings, and whose [author] (or, without one, [user]) is a
    string or an empty value. *)
Theorem get_status_returns repository filename commit :
  let author := default (default (VStr "-") (commit !! "user")) (commit !! "author") in
  (∃ status, Cli.get_status repository filename commit = Ok status)
  ↔ (commit !! "branches" = None ∨ ∃ b, commit !! "branches" = Some (VDict b))
    ∧ (commit !! "sha" = None ∨ ∃ s, commit !! "sha" = Some (VStr s))
    ∧ (commit !! "host" = None ∨ ∃ s, commit !! "host" = Some (VStr s))
    ∧ (Cli.truthy_value author = false ∨ ∃ s, author = VStr s).
Proof.
  intros author. unfold Cli.get_status. fold author.
  pose proof (branches_column_returns "local" commit) as Hlocal.
  pose proof (branches_column_returns "remote" commit) as Hremote.
  destruct (Cli.branches_column "local" commit) as [local_branches|e].
  - destruct (Cli.branches_column "remote" commit) as [remote_branches|e].
    + unfold mbind, result_bind. rewrite join_returns.
      rewrite !Forall_cons, Forall_nil.
      split.
      * intros (_ & _ & [sha Hsha] & _ & _ & [host Hhost] & [a Ha] & _).
        split; [apply Hlocal; by eexists|].
        split; [destruct (commit !! "sha") as [?|]; [right; simpl in Hsha; subst; by eexists|by left]|].
        split; [destruct (commit !! "host") as [?|]; [right; simpl in Hhost; subst; by eexists|by left]|].
        destruct (Cli.truthy_value author); [right; by exists a|by left].
      * intros (_ & Hsha & Hhost & Hauthor).
        split; [by eexists|]. split; [by eexists|].
        split; [destruct Hsha as [->|[s ->]]; by eexists|].
        split; [by eexists|]. split; [by eexists|].
        split; [destruct Hhost as [->|[s ->]]; by eexists|].
        split; [|done]. destruct Hauthor as [->|[s ->]]; [by eexists|].
        destruct (Cli.truthy_value (VStr s)); by eexists.
    + split; [by intros [? ?]|]. intros (Hbranches & _).
      apply Hremote in Hbranches as [? ?]. done.
  - split; [by intros [? ?]|]. intros (Hbranches & _).
    apply Hlocal in Hbranches as [? ?]. done.
Qed.

Lemma split_nonempty c s : split c s ≠ [].
Proof.
  induction s as [|d s IH]; simpl; [done|].
  destruct (Ascii.eqb d c); [done|]. by destruct (split c s).
Qed.

Lemma split_length c s :
  length (split c s) = S (count_occ ascii_dec (list_ascii_of_string s) c).
Proof.
  induction s as [|d s IH]; simpl; [done|].
  destruct (Ascii.eqb_spec d c) as [->|Hd].
  - simpl. destruct (ascii_dec c c); [|done]. by rewrite IH.
  - destruct (ascii_dec d c); [done|].
    pose proof (split_nonempty c s). destruct (split c s); [done|]. exact IH.
Qed.

Lemma split_piece c s t :
  Forall (λ d, d ≠ c) (list_ascii_of_string s) →
  split c (s +:+ String c t) = s :: split c t.
Proof.
  induction s as [|d s IH]; simpl; intros Hall.
  - by rewrite Ascii.eqb_refl.
  - apply Forall_cons in Hall as [Hd Hall]. rewrite (IH Hall).
    by destruct (Ascii.eqb_spec d c).
Qed.

Lemma validate_key_value_loop_raises value result e :
  Cli.validate_key_value_loop value result = Raise e → e = ValueError.
Proof.
  revert result. induction value as [|item value IH]; intros result; simpl; [done|].
  destruct (split "=" item) as [|key [|val [|? ?]]]; try (by intros [= <-]).
  apply IH.
Qed.

(** X20. The headers given on the command line are accepted exactly when
    every item has one equals sign; otherwise the validation is a
    [ValueError]. *)
Theorem validate_key_value_returns value :
  match Cli.validate_key_value value with
  | Ok _ => Forall (λ item, count_occ ascii_dec (list_ascii_of_string item) "="%char = 1%nat)
                   value
  | Raise e => e = ValueError
                ∧ Exists (λ item, count_occ ascii_dec (list_ascii_of_string item) "="%char
                                  ≠ 1%nat) value
  end.
Proof.
  unfold Cli.validate_key_value. generalize (∅ : gmap string string).
  induction value as [|item value IH]; intros result; simpl; [done|].
  pose proof (split_length "=" item) as Hlen.
  destruct (split "=" item) as [|key [|val [|? ?]]] eqn:Hsplit; simpl in Hlen.
  - done.
  - split; [done|]. left. lia.
  - specialize (IH (<[key:=val]> result)).
    destruct (Cli.validate_key_value_loop value _).
    + constructor; [lia|done].
    + destruct IH. split; [done|]. by right.
  - split; [done|]. left. lia.
Qed.

Lemma validate_key_value_loop_pairs (pairs : list (string * string)) result :
  Forall (λ kv, Forall (λ c, c ≠ "="%char) (list_ascii_of_string kv.1)
                ∧ Forall (λ c, c ≠ "="%char) (list_ascii_of_string kv.2)) pairs →
  Cli.validate_key_value_loop ((λ kv, kv.1 +:+ String "=" kv.2) <$> pairs) result
  = Ok (list_to_map (reverse pairs) ∪ result).
Proof.
  revert result. induction pairs as [|[key val] pairs IH]; intros result Hpairs; simpl.
  - by rewrite (left_id_L ∅ (∪)).
  - apply Forall_cons in Hpairs as [[Hkey Hval] Hpairs]. simpl in *.
    rewrite (split_piece _ _ _ Hkey).
    rewrite (proj2 (split_first_piece "=" val EmptyString Hval)).
    rewrite (IH _ Hpairs). f_equal.
    rewrite reverse_cons, list_to_map_app. simpl.
    rewrite insert_empty, <- (assoc_L (∪)).
    by rewrite (insert_union_singleton_l result key val).
Qed.

(** X21. Items written [key=val], without equals sign in the key or in the
    value, come back as the dictionary of these keys and values; of two
    items with the same key the later one counts. *)
Theorem validate_key_value_pairs (pairs : list (string * string)) :
  Forall (λ kv, Forall (λ c, c ≠ "="%char) (list_ascii_of_string kv.1)
                ∧ Forall (λ c, c ≠ "="%char) (list_ascii_of_string kv.2)) pairs →
  Cli.validate_key_value ((λ kv, kv.1 +:+ String "=" kv.2) <$> pairs)
  = Ok (list_to_map (reverse pairs)).
Proof.
  intros Hpairs. unfold Cli.validate_key_value.
  rewrite (validate_key_value_loop_pairs pairs ∅ Hpairs). by rewrite (right_id_L ∅ (∪)).
Qed.

Section StatusFacts.

Variable E : Outside.
Variable get_file_last_commit : Repository → string → M record.

Lemma run_status_loop_not_setup root filenames w :
  root ≠ EmptyString →
  new_Repository E root w = Raise RepositoryNotSetup →
  Cli.run_status_loop E get_file_last_commit root filenames w
  = (Ok ((λ f, "-------- " +:+ f +:+ " - - - - -") <$> filenames), w).
Proof.
  intros Hroot Hnone. induction filenames as [|f filenames IH]; simpl; [done|].
  rewrite (bool_decide_eq_false_2 _ Hroot).
  unfold mbind at 1, M_bind, Cli.get_repository, try_except.
  unfold mbind at 1, M_bind. rewrite Hnone.
  unfold mret at 1, M_ret. unfold mbind at 1, M_bind, mret at 1, M_ret.
  unfold mbind at 1, M_bind, lift.
  assert (Cli.get_status None f ∅ = Ok ("-------- " +:+ f +:+ " - - - - -")) as ->
    by done.
  unfold mbind at 1, M_bind. by rewrite IH.
Qed.

(** X22. The repository of a status report is looked up once for all:
    with a [REPOSITORY] it is that one, without it is the one of the first
    file.  When gitalong is not set up there, every file of the batch,
    wherever it lies, is reported with eight minus signs and no commit,
    and nothing has happened outside. *)
Theorem run_status_not_setup REPOSITORY filename filenames w :
  let root := if bool_decide (REPOSITORY = EmptyString) then filename else REPOSITORY in
  root ≠ EmptyString →
  new_Repository E root w = Raise RepositoryNotSetup →
  Cli.run_status E get_file_last_commit REPOSITORY (filename :: filenames) w
  = (Ok (String.concat (String "010" EmptyString)
           ((λ f, "-------- " +:+ f +:+ " - - - - -") <$> filename :: filenames)), w).
Proof.
  intros root Hroot Hnone. unfold Cli.run_status. unfold mbind, M_bind.
  assert (Cli.run_status_loop E get_file_last_commit REPOSITORY (filename :: filenames) w
          = Cli.run_status_loop E get_file_last_commit root (filename :: filenames) w) as ->.
  { subst root. destruct (decide (REPOSITORY = EmptyString)) as [->|HR].
    - rewrite (bool_decide_eq_true_2 _ eq_refl). simpl.
      by destruct (bool_decide (filename = EmptyString)).
    - by rewrite (bool_decide_eq_false_2 _ HR). }
  by rewrite run_status_loop_not_setup.
Qed.

End StatusFacts.

(** ** The further theorems at concrete inputs *)

Lemma commits_then_commits_witness :
  let w := Examples.answering (mkResponse 200 (Some [Examples.model_fbx]) "{}") in
  let w1 := (JsonbinStore.commits Examples.expandvars Examples.game w).2 in
  ¬ JsonbinStore.fresh_cache Examples.game w
  ∧ JsonbinStore.commits Examples.expandvars Examples.game (tick 30 w1)
    = (Ok [Examples.model_fbx], tick 30 w1).
Proof.
  intros w w1.
  assert (¬ JsonbinStore.fresh_cache Examples.game w) as Hstale
    by (vm_compute; discriminate).
  split; [exact Hstale|].
  apply (commits_then_commits Examples.expandvars Examples.game w
           (mkResponse 200 (Some [Examples.model_fbx]) "{}") [] _ 30 Hstale);
    [reflexivity|reflexivity|reflexivity|vm_compute; by split].
Defined.

Lemma commits_without_threshold_witness :
  pull_threshold MoreExamples.uncached ≤ 0
  ∧ length (sent (JsonbinStore.commits Examples.expandvars MoreExamples.uncached
                    Examples.noon).2) = 1%nat.
Proof.
  assert (pull_threshold MoreExamples.uncached ≤ 0) as Hzero by (vm_compute; discriminate).
  split; [exact Hzero|].
  rewrite (commits_without_threshold Examples.expandvars MoreExamples.uncached Examples.noon
             Hzero); [reflexivity|].
  intros mtime cached Hcache. vm_compute in Hcache. injection Hcache as <- _.
  vm_compute. discriminate.
Defined.

Lemma store_touches_its_cache_only_witness :
  "/work/studio/.gitalong/commits.json" ≠ JsonbinStore._local_json_path Examples.game
  ∧ local_json (JsonbinStore.set_commits Examples.expandvars Examples.game []
                  (Examples.answering (mkResponse 200 None "{}"))).2
    !! "/work/studio/.gitalong/commits.json"
    = Some (43190, Examples.tracked).
Proof.
  assert ("/work/studio/.gitalong/commits.json"
          ≠ JsonbinStore._local_json_path Examples.game) as Hpath
    by (vm_compute; discriminate).
  split; [exact Hpath|].
  destruct (store_touches_its_cache_only Examples.expandvars Examples.game []
              (Examples.answering (mkResponse 200 None "{}")) _ Hpath)
    as [_ (Hcache & _)].
  rewrite Hcache. reflexivity.
Defined.

Lemma commits_without_answer_witness :
  let w := tick 600 Examples.noon in
  net w = [] ∧ ¬ JsonbinStore.fresh_cache Examples.game w
  ∧ (JsonbinStore.commits Examples.expandvars Examples.game w).1 = Raise ConnectionError
  ∧ (JsonbinStore.set_commits Examples.expandvars Examples.game [] w).1
    = Raise ConnectionError.
Proof.
  intros w.
  assert (¬ JsonbinStore.fresh_cache Examples.game w) as Hstale
    by (vm_compute; discriminate).
  split; [reflexivity|]. split; [exact Hstale|].
  pose proof (commits_without_answer Examples.expandvars Examples.game [] w eq_refl) as H.
  destruct (JsonbinStore.set_commits _ _ _ w) as [written w1].
  destruct H as [(-> & _) H]. specialize (H Hstale).
  destruct (JsonbinStore.commits _ _ w) as [result w2]. by destruct H as (-> & _).
Defined.

Lemma last_tracked_commit_ties_witness :
  let candidates := [MoreExamples.first_claim; MoreExamples.second_claim; Examples.model_fbx] in
  candidates ≠ [] ∧ forallb has_date candidates = true
  ∧ ∃ last_commit before after,
      Batch.last_tracked_commit candidates = Ok last_commit
      ∧ candidates = before ++ last_commit :: after
      ∧ Forall (λ c, date_leb c last_commit = true) before
      ∧ Forall (λ c, date_leb last_commit c = false) after.
Proof.
  intros candidates.
  assert (candidates ≠ []) as Hsome by done.
  assert (forallb has_date candidates = true) as Hdated by (vm_compute; reflexivity).
  split; [exact Hsome|]. split; [exact Hdated|].
  exact (last_tracked_commit_ties candidates Hsome Hdated).
Defined.

Example last_tracked_commit_ties_example :
  Batch.last_tracked_commit
    [MoreExamples.first_claim; MoreExamples.second_claim; Examples.model_fbx]
  = Ok MoreExamples.second_claim.
Proof. vm_compute. reflexivity. Qed.

Lemma last_tracked_commit_undated_witness :
  MoreExamples.undated !! "date" = None
  ∧ Batch.last_tracked_commit [Examples.model_fbx; MoreExamples.undated] = Raise TypeError.
Proof.
  assert (MoreExamples.undated !! "date" = None) as Hnone by (vm_compute; reflexivity).
  split; [exact Hnone|].
  apply (proj2 (last_tracked_commit_undated [Examples.model_fbx; MoreExamples.undated]
                  MoreExamples.undated)); [simpl; lia| |exact Hnone].
  apply elem_of_cons. right. by left.
Defined.

Lemma store_not_reachable_surfaces_witness :
  let w := Examples.answering (mkResponse 503 None "Service Unavailable") in
  new_Repository Examples.outside "/work/game/art/model.fbx" w = Ok Examples.game
  ∧ ∃ w', Batch.get_files_last_commits Examples.outside
            ["/work/game/art/model.fbx"; "/tmp/notes.txt"] true w
          = (Raise StoreNotReachable, w')
      ∧ local_json w' = local_json w.
Proof.
  intros w. split; [reflexivity|].
  apply (store_not_reachable_surfaces Examples.outside "/work/game/art/model.fbx"
           ["/tmp/notes.txt"] true w Examples.game
           (mkResponse 503 None "Service Unavailable") []);
    [reflexivity|vm_compute; discriminate|reflexivity|vm_compute; discriminate].
Defined.

Lemma history_last_commit_fetches_twice_witness :
  pulled_within MoreExamples.recent Examples.game (pull_threshold Examples.game) Examples.noon
  = true
  ∧ fetches (Batch.history_last_commit MoreExamples.recent Examples.game "art/tree.fbx" true
               Examples.noon).2 = fetches Examples.noon.
Proof.
  split; [reflexivity|].
  destruct (history_last_commit_fetches_twice MoreExamples.recent Examples.game
              "art/tree.fbx" true Examples.noon) as (fetched & [-> _] & Hpulled & _).
  rewrite (Hpulled eq_refl). reflexivity.
Defined.

Lemma history_last_commit_fetch_errors_witness :
  origin_fetch MoreExamples.outside Examples.game true Examples.noon = Raise AttributeError
  ∧ Batch.history_last_commit MoreExamples.outside Examples.game "art/tree.fbx" true
      Examples.noon = (Raise AttributeError, Examples.noon)
  ∧ origin_fetch Examples.outside Examples.game true Examples.noon = Raise GitCommandError
  ∧ Batch.history_last_commit Examples.outside Examples.game "art/tree.fbx" true Examples.noon
    = History.newest Examples.outside Examples.game "art/tree.fbx" Examples.noon.
Proof.
  split; [reflexivity|]. split; [|split; [reflexivity|]].
  - exact (history_last_commit_fetch_errors MoreExamples.outside Examples.game
             "art/tree.fbx" true Examples.noon AttributeError eq_refl eq_refl).
  - exact (history_last_commit_fetch_errors Examples.outside Examples.game
             "art/tree.fbx" true Examples.noon GitCommandError eq_refl eq_refl).
Defined.

Lemma history_last_commit_first_line_witness :
  Forall (λ c, c ≠ "034"%char ∧ c ≠ "010"%char) (list_ascii_of_string "0a1b2c")
  ∧ Batch.history_last_commit MoreExamples.recent Examples.game "art/tree.fbx" true
      Examples.noon = (Ok (Raw Examples.root_commit), Examples.noon).
Proof.
  assert (Forall (λ c, c ≠ "034"%char ∧ c ≠ "010"%char) (list_ascii_of_string "0a1b2c"))
    as Hsha by (repeat constructor; discriminate).
  split; [exact Hsha|].
  apply (proj1 (history_last_commit_first_line MoreExamples.recent Examples.game
                  "art/tree.fbx" true Examples.noon "0a1b2c"
                  (String "034" ("9f8e7d" +:+ String "034" EmptyString)) eq_refl Hsha)).
  right. reflexivity.
Defined.

Lemma with_branches_keys_witness :
  Batch.with_branches MoreExamples.first_claim ["main"] ["main"; "rig"]
  = Ok (<["branches" := VDict [("local", ["main"]); ("remote", ["main"; "rig"])]]>
          MoreExamples.first_claim)
  ∧ ∀ d', Batch.with_branches MoreExamples.first_claim ["main"] ["main"; "rig"] = Ok d' →
          d' !! "clone" = Some (VStr "/work/one").
Proof.
  split; [vm_compute; reflexivity|]. intros d' Hd'.
  destruct (proj1 (proj2 (with_branches_keys MoreExamples.first_claim ["main"] ["main"; "rig"]))
              d' Hd') as [Hkeys _].
  rewrite Hkeys; [vm_compute; reflexivity|discriminate].
Defined.

Lemma get_status_signs_witness :
  Cli.get_status (Some Examples.studio) "art/model.fbx" MoreExamples.enriched
  = Ok "-+---+-- art/model.fbx abc main,rig - atelier dana"
  ∧ ∃ columns, "-+---+-- art/model.fbx abc main,rig - atelier dana"
               = "-+---+--" +:+ " " +:+ "art/model.fbx" +:+ " " +:+ columns.
Proof.
  assert (Cli.get_status (Some Examples.studio) "art/model.fbx" MoreExamples.enriched
          = Ok "-+---+-- art/model.fbx abc main,rig - atelier dana") as Hstatus
    by (vm_compute; reflexivity).
  split; [exact Hstatus|].
  exact (get_status_signs (Some Examples.studio) "art/model.fbx" MoreExamples.enriched _
           Hstatus).
Defined.

Lemma validate_key_value_pairs_witness :
  let pairs := [("X-Master-Key", "$KEY"); ("X-Bin-Meta", "false"); ("X-Master-Key", "k2")] in
  Forall (λ kv, Forall (λ c, c ≠ "="%char) (list_ascii_of_string kv.1)
                ∧ Forall (λ c, c ≠ "="%char) (list_ascii_of_string kv.2)) pairs
  ∧ Cli.validate_key_value ["X-Master-Key=$KEY"; "X-Bin-Meta=false"; "X-Master-Key=k2"]
    = Ok (list_to_map (reverse pairs)).
Proof.
  intros pairs.
  assert (Forall (λ kv, Forall (λ c, c ≠ "="%char) (list_ascii_of_string kv.1)
                        ∧ Forall (λ c, c ≠ "="%char) (list_ascii_of_string kv.2)) pairs)
    as Hpairs by (repeat constructor; discriminate).
  split; [exact Hpairs|].
  exact (validate_key_value_pairs pairs Hpairs).
Defined.

Lemma run_status_not_setup_witness :
  new_Repository MoreExamples.outside "/work/plain/a.fbx" Examples.noon
  = Raise RepositoryNotSetup
  ∧ Cli.run_status MoreExamples.outside MoreExamples.get_file_last_commit EmptyString
      ["/work/plain/a.fbx"; "/work/game/art/model.fbx"] Examples.noon
    = (Ok (String.concat (String "010" EmptyString)
             ["-------- /work/plain/a.fbx - - - - -";
              "-------- /work/game/art/model.fbx - - - - -"]), Examples.noon).
Proof.
  split; [reflexivity|].
  apply (run_status_not_setup MoreExamples.outside MoreExamples.get_file_last_commit
           EmptyString "/work/plain/a.fbx" ["/work/game/art/model.fbx"] Examples.noon);
    [discriminate|reflexivity].
Defined.

(** The same functions, evaluated. *)
Example validate_key_value_example :
  Cli.validate_key_value ["X-Master-Key"] = Raise ValueError
  ∧ Cli.validate_key_value ["a=b=c"] = Raise ValueError
  ∧ Cli.validate_key_value ["a=b"; "a=c"] = Ok {[ "a" := "c" ]}.
Proof. repeat split; vm_compute; reflexivity. Qed.

Example run_status_example :
  Cli.run_status MoreExamples.outside MoreExamples.get_file_last_commit EmptyString
    ["/work/studio/art/model.fbx"; "/work/plain/a.fbx"] Examples.noon
  = (Ok (String.concat (String "010" EmptyString)
           ["-+---+-- /work/studio/art/model.fbx abc main,rig - atelier dana";
            "-+---+-- /work/plain/a.fbx abc main,rig - atelier dana"]), Examples.noon).
Proof. vm_compute. reflexivity. Qed.
